(** * chain-utils: block height and block time calculators

    A shallow embedding of the five command-line programs of the
    repository (Bor and Heimdall average block time, Bor and Heimdall
    hard-fork block height prediction, Heimdall block time estimation)
    and of the JSON-RPC helper they share, followed by the properties
    proved about them.

    Conventions.  Go's fixed-width integers are values of [Z] with the
    wrap-around written out ([wrap64], [wrapU64]).  [time.Time] is the
    number of nanoseconds since the Unix epoch, an unbounded integer;
    [time.Duration] is a signed 64-bit count of nanoseconds.  [float64]
    is the kernel's binary64 ([PrimFloat]); a conversion of a float to
    an integer that Go leaves to the implementation is [None].  Go's
    [(value, error)] pairs are values of [result].  The JSON-RPC calls
    of the Bor programs are answered by a [Net]: a function from the
    number of requests sent so far and the request to an answer.  The
    answers of the REST endpoints of the Heimdall programs are inputs of
    their [main]; [Rest] has the helpers that obtain them from an
    endpoint.  Flag parsing is left out.  A program prints structured
    lines; the helpers that lay out numbers and elapsed times are in
    [Text]. *)

From Stdlib Require Import ZArith QArith Qround String Ascii List Lia Bool Floats.
From stdpp Require Import gmap.
Import ListNotations.
Open Scope string_scope.
Open Scope Z_scope.

(** ** Go basics: integers, errors, results *)

Module Go.

Definition two64 : Z := 2 ^ 64.
Definition MaxInt64 : Z := 2 ^ 63 - 1.
Definition MinInt64 : Z := - 2 ^ 63.
Definition MaxUint64 : Z := 2 ^ 64 - 1.

Definition is_int64 (z : Z) : Prop := MinInt64 <= z <= MaxInt64.
Definition is_uint64 (z : Z) : Prop := 0 <= z <= MaxUint64.

(** Conversion to [uint64]: reduction modulo 2^64. *)
Definition wrapU64 (z : Z) : Z := z mod two64.

(** Conversion to [int64]: the two's complement reading of the low 64 bits. *)
Definition wrap64 (z : Z) : Z := (z + 2 ^ 63) mod two64 - 2 ^ 63.

(** Errors are kept structured: one constructor per place where the
    programs build an error, [ErrMsg] for the errors the libraries
    return (transport, JSON decoding, parsing), identified by message. *)
#[warnings="-register-all"]
Inductive error : Type :=
| ErrMsg (msg : string)
| ErrEmptyHex
| ErrInvalidHex (h : string)
| ErrHexRange (h : string)
| ErrRpcExhausted (method : string) (attempts : Z) (lastErr : option error)
| ErrEmptyBlock (height : Z)
| ErrLatestTimestamp (n : Z)
| ErrHTTPStatus (code : Z) (url : string)
| ErrWrap (context : string) (cause : error).

Inductive result (A : Type) : Type :=
| Ok (a : A)
| Err (e : error).
Arguments Ok {A} a.
Arguments Err {A} e.

Definition is_Err {A} (r : result A) : bool :=
  match r with Ok _ => false | Err _ => true end.

End Go.
Export Go.

(** ** Go basics: instants, durations, [float64] *)

Module GoTime.

(** [time.Duration] units, in nanoseconds. *)
Definition Nanosecond : Z := 1.
Definition Microsecond : Z := 1000 * Nanosecond.
Definition Millisecond : Z := 1000 * Microsecond.
Definition Second : Z := 1000 * Millisecond.
Definition Minute : Z := 60 * Second.
Definition Hour : Z := 60 * Minute.

Definition minDuration : Z := MinInt64.
Definition maxDuration : Z := MaxInt64.

(** [t.Sub(u)]: the difference of two instants, or the nearest duration
    when the difference does not fit. *)
Definition Sub (t u : Z) : Z :=
  let d := t - u in
  if d <? minDuration then minDuration
  else if maxDuration <? d then maxDuration
  else d.

(** [t.Add(d)]. *)
Definition Add (t d : Z) : Z := t + d.

(** [time.Unix(sec, 0)]. *)
Definition Unix (sec : Z) : Z := sec * Second.

(** The product of two durations, in [int64]. *)
Definition Duration_mul (a b : Z) : Z := wrap64 (a * b).

(** Conversion of an [int64] to [float64]: the nearest float, ties to even. *)
Definition float64_of_int (z : Z) : float :=
  if z =? MinInt64 then PrimFloat.opp 9223372036854775808%float
  else if z <? 0 then PrimFloat.opp (PrimFloat.of_uint63 (Uint63.of_Z (- z)))
  else PrimFloat.of_uint63 (Uint63.of_Z z).

(** [d.Seconds()]. *)
Definition Seconds (d : Z) : float :=
  let sec := Z.quot d Second in
  let nsec := Z.rem d Second in
  PrimFloat.add (float64_of_int sec) (PrimFloat.div (float64_of_int nsec) 1e9%float).

(** The integer part of a float, toward zero; [None] for an infinity or
    a NaN. *)
Definition trunc_SF (f : spec_float) : option Z :=
  match f with
  | S754_zero _ => Some 0
  | S754_finite s m e =>
      let mag := if 0 <=? e then Z.pos m * 2 ^ e else Z.pos m / 2 ^ (- e) in
      Some (if s then - mag else mag)
  | S754_infinity _ => None
  | S754_nan => None
  end.

(** The nearest integer to a float, halves away from zero; [None] for an
    infinity or a NaN. *)
Definition round_SF (f : spec_float) : option Z :=
  match f with
  | S754_zero _ => Some 0
  | S754_finite s m e =>
      let mag :=
        if 0 <=? e then Z.pos m * 2 ^ e
        else (2 * Z.pos m + 2 ^ (- e)) / (2 * 2 ^ (- e)) in
      Some (if s then - mag else mag)
  | S754_infinity _ => None
  | S754_nan => None
  end.

Definition in_int64 (z : Z) : bool := (MinInt64 <=? z) && (z <=? MaxInt64).

(** The conversion [int64(f)]: the fraction is discarded.  When the
    integer part is not an [int64] the result depends on the
    implementation: [None]. *)
Definition int64_of_float (f : float) : option Z :=
  match trunc_SF (Prim2SF f) with
  | Some z => if in_int64 z then Some z else None
  | None => None
  end.

(** [int64(math.Round(f))]: [math.Round] gives the float that is the
    nearest integer, halves away from zero, and the conversion of that
    float is exact when it is an [int64]. *)
Definition int64_of_Round (f : float) : option Z :=
  match round_SF (Prim2SF f) with
  | Some z => if in_int64 z then Some z else None
  | None => None
  end.

(** *** The exact value of a float *)

(** The rational a finite float stands for: its mantissa times two to
    its exponent, with its sign. *)
Definition SF_Q (f : spec_float) : option Q :=
  match f with
  | S754_zero _ => Some 0%Q
  | S754_finite s m e =>
      let mag :=
        if 0 <=? e then inject_Z (Z.pos m * 2 ^ e)
        else (inject_Z (Z.pos m) / inject_Z (2 ^ (- e)))%Q in
      Some (if s then Qopp mag else mag)
  | S754_infinity _ => None
  | S754_nan => None
  end.

(** Above zero: a finite float with a clear sign bit, or plus infinity. *)
Definition positive_SF (f : spec_float) : Prop :=
  match f with
  | S754_finite false _ _ => True
  | S754_infinity false => True
  | _ => False
  end.

(** Neither a negative number nor minus infinity. *)
Definition not_negative (f : spec_float) : Prop :=
  match f with
  | S754_finite true _ _ => False
  | S754_infinity true => False
  | _ => True
  end.

Definition exact (f : float) : option Q := SF_Q (Prim2SF f).

(** Rounding a rational to the nearest integer, halves away from zero. *)
Definition Qround_away (q : Q) : Z :=
  if Qle_bool 0 q then Qfloor (q + (1 # 2)) else Qceiling (q - (1 # 2)).

(** The integer part of a rational, toward zero. *)
Definition Qtrunc (q : Q) : Z :=
  if Qle_bool 0 q then Qfloor q else Qceiling q.

End GoTime.

(** ** Hexadecimal quantities

    [hexToUint64] is the same function in both Bor programs.  It hands
    the digits to [math/big]'s [Int.SetString(h, 16)], which is
    modelled here after its implementation: an optional sign, then
    [nat.scan], then the requirement that the whole string was read. *)

Module Hex.

(** [strings.HasPrefix]: [s] is at least as long as [p] and starts with it. *)
Fixpoint HasPrefix (s p : string) {struct p} : bool :=
  match p, s with
  | EmptyString, _ => true
  | String _ _, EmptyString => false
  | String b p', String a s' => Ascii.eqb a b && HasPrefix s' p'
  end.

(** The slice expression [h[n:]]. *)
Fixpoint drop (n : nat) (s : string) : string :=
  match n, s with
  | O, _ => s
  | S _, EmptyString => EmptyString
  | S k, String _ r => drop k r
  end.

Definition byte (ch : ascii) : Z := Z.of_N (N_of_ascii ch).

(** [math/big.MaxBase]. *)
Definition MaxBase : Z := 62.

(** The digit value [nat.scan] gives a byte, for a base of at most 36:
    letters of either case count from ten, any other byte is [MaxBase + 1]. *)
Definition digit_val (ch : ascii) : Z :=
  let c := byte ch in
  if (48 <=? c) && (c <=? 57) then c - 48
  else if (97 <=? c) && (c <=? 122) then c - 97 + 10
  else if (65 <=? c) && (c <=? 90) then c - 65 + 10
  else MaxBase + 1.

(** [nat.scan] with an explicit base and no fraction: digits are
    accumulated until the input ends or a byte is not a digit of the
    base; that byte is unread.  Returns the value, the number of digits
    and the unread rest. *)
Fixpoint nat_scan (b : Z) (s : string) (acc : Z) (count : nat) : Z * nat * string :=
  match s with
  | EmptyString => (acc, count, EmptyString)
  | String ch rest =>
      let d1 := digit_val ch in
      if d1 >=? b then (acc, count, s)
      else nat_scan b rest (acc * b + d1) (S count)
  end.

(** [scanSign]: reads one byte; [None] is the read error on empty input. *)
Definition scanSign (s : string) : option (bool * string) :=
  match s with
  | EmptyString => None
  | String ch rest =>
      if Ascii.eqb ch "-" then Some (true, rest)
      else if Ascii.eqb ch "+" then Some (false, rest)
      else Some (false, s)
  end.

(** [Int.SetString(s, base)] for [2 <= base <= 36]: [None] is [ok = false].
    The sign is kept only for a non-zero magnitude. *)
Definition SetString (s : string) (base : Z) : option Z :=
  match scanSign s with
  | None => None
  | Some (neg, r) =>
      let '(abs, count, rest) := nat_scan base r 0 O in
      match count, rest with
      | O, _ => None
      | S _, EmptyString => Some (if neg then - abs else abs)
      | S _, String _ _ => None
      end
  end.

(** [Int.Sign], [Int.IsUint64], [Int.Uint64]. *)
Definition Sign (bi : Z) : Z := Z.sgn bi.
Definition IsUint64 (bi : Z) : bool := (0 <=? bi) && (bi <=? MaxUint64).
Definition Uint64 (bi : Z) : Z := wrapU64 (Z.abs bi).

(** The prefix test and slice that open [hexToUint64]. *)
Definition strip0x (h : string) : string :=
  if HasPrefix h "0x" || HasPrefix h "0X" then drop 2 h else h.

Definition hexToUint64 (h : string) : result Z :=
  let h := strip0x h in
  if String.eqb h "" then Err ErrEmptyHex
  else
    match SetString h 16 with
    | None => Err (ErrInvalidHex h)
    | Some bi =>
        if (Sign bi <? 0) || negb (IsUint64 bi) then Err (ErrHexRange h)
        else Ok (Uint64 bi)
    end.

(** [fmt]'s [%x] for an unsigned integer: the low four bits give a
    digit while the value is at least 16, then the last digit.  Sixteen
    rounds cover a 64-bit value. *)
Definition ldigits : string := "0123456789abcdef".

Definition hex_digit (d : Z) : ascii :=
  match String.get (Z.to_nat d) ldigits with
  | Some c => c
  | None => "0"%char
  end.

Fixpoint fmt_hex_loop (rounds : nat) (u : Z) (buf : string) : string :=
  match rounds with
  | O => buf
  | S k =>
      if u <? 16 then String (hex_digit u) buf
      else fmt_hex_loop k (Z.shiftr u 4) (String (hex_digit (Z.land u 15)) buf)
  end.

Definition fmt_x (u : Z) : string := fmt_hex_loop 16 u "".

(** [fmt.Sprintf("0x%x", v)], as [getBlockTimestamp] renders a height. *)
Definition toHex (v : Z) : string := String.append "0x" (fmt_x v).

(** *** What a hexadecimal rendering is *)

Definition is_hex_digit (ch : ascii) : bool := digit_val ch <? 16.

Fixpoint all_hex (s : string) : bool :=
  match s with
  | EmptyString => true
  | String ch r => is_hex_digit ch && all_hex r
  end.

Fixpoint hex_value_from (acc : Z) (s : string) : Z :=
  match s with
  | EmptyString => acc
  | String ch r => hex_value_from (acc * 16 + digit_val ch) r
  end.

Definition hex_value (s : string) : Z := hex_value_from 0 s.

(** [ds] is a non-empty string of hexadecimal digits (either case,
    leading zeros allowed) that denotes [v]. *)
Definition hex_rendering (ds : string) (v : Z) : Prop :=
  ds <> "" /\ all_hex ds = true /\ hex_value ds = v.

(** The sign and the digits of a body, as a reader splits them. *)
Definition split_sign (b : string) : bool * string :=
  match b with
  | String ch r =>
      if Ascii.eqb ch "-" then (true, r)
      else if Ascii.eqb ch "+" then (false, r)
      else (false, b)
  | EmptyString => (false, b)
  end.

(** The inputs [hexToUint64] turns down, read off the body that is left
    once the prefix is gone: no digit at all, a byte that is not a
    hexadecimal digit after the optional sign, a minus sign in front of
    a non-zero magnitude, or a magnitude above [2^64 - 1]. *)
Definition rejected (h : string) : Prop :=
  let '(neg, ds) := split_sign (strip0x h) in
  ds = "" \/ all_hex ds = false \/
  (neg = true /\ hex_value ds <> 0) \/ MaxUint64 < hex_value ds.

(** The bad inputs in the words of the specification: the empty string
    or a bare prefix, a string with a character that is not a
    hexadecimal digit, a negative sign, a magnitude above [2^64 - 1]. *)
Definition spec_bad_input (h : string) : Prop :=
  let b := strip0x h in
  b = "" \/ all_hex b = false \/ HasPrefix b "-" = true \/
  (all_hex b = true /\ MaxUint64 < hex_value b).

(** The specification's reading of the error cases: every bad input is
    turned down. *)
Definition spec_rejects_bad_inputs : Prop :=
  forall h, spec_bad_input h -> exists e, hexToUint64 h = Err e.

End Hex.

(** ** The JSON-RPC helper of the Bor programs

    [rpcCall], [getLatestBlockNumber] and [getBlockTimestamp] are the
    same in both Bor programs.  They run in a world that counts the
    requests sent and records, in order, every request and every sleep. *)

Module Rpc.

Definition jsonrpcVer : string := "2.0".
Definition maxRetries : Z := 3.
Definition retryBackoff : Z := 600 * GoTime.Millisecond.

(** A value of the [params] slice: the programs send strings and booleans. *)
Inductive param : Type :=
| PString (s : string)
| PBool (b : bool).

Record rpcRequest : Type := {
  JSONRPC : string;
  Method : string;
  Params : list param;
  ID : Z
}.

Record rpcError : Type := {
  Code : Z;
  Message : string
}.

(** [rpcResponse[T]]: the fields the helper reads. *)
Record rpcResponse (T : Type) : Type := {
  Result : T;
  Error : option rpcError
}.
Arguments Result {T} r.
Arguments Error {T} r.

Record block : Type := {
  Number : string;
  Timestamp : string
}.

(** What [client.Do] gives back: an error, or a response whose body is
    still to be decoded. *)
Inductive wire : Type :=
| TransportFailure (e : error)
| Response (body : string).

(** The network as the helper sees it.  [url_error] is the error
    [http.NewRequestWithContext] returns for a URL, if any; [respond k
    url req] is the answer to the request [req] when [k] requests were
    sent before it. *)
Record Net : Type := {
  url_error : string -> option error;
  respond : nat -> string -> rpcRequest -> wire
}.

(** [json.NewDecoder(body).Decode(&decoded)] at the result type [T]. *)
Class Decode (T : Type) : Type :=
  decode : string -> result (rpcResponse T).

Inductive Event : Type :=
| EvPost (url : string) (req : rpcRequest)
| EvSleep (d : Z).

Record World : Type := {
  requests : nat;
  trace : list Event
}.

Definition start : World := {| requests := O; trace := [] |}.

(** State passing over the world. *)
Definition M (A : Type) : Type := World -> A * World.

Definition ret {A} (a : A) : M A := fun w => (a, w).

Definition bind {A B} (m : M A) (k : A -> M B) : M B :=
  fun w => let '(a, w1) := m w in k a w1.

Notation "x <- m ;; k" := (bind m (fun x => k))
  (at level 100, m at next level, right associativity).
Notation "m ;;; k" := (bind m (fun _ => k))
  (at level 100, right associativity).

Definition post (net : Net) (url : string) (req : rpcRequest) : M wire :=
  fun w =>
    (respond net (requests w) url req,
     {| requests := S (requests w); trace := trace w ++ [EvPost url req] |}).

(** [time.Sleep]. *)
Definition Sleep (d : Z) : M unit :=
  fun w => (tt, {| requests := requests w; trace := trace w ++ [EvSleep d] |}).

Definition request (method : string) (params : list param) : rpcRequest :=
  {| JSONRPC := jsonrpcVer; Method := method; Params := params; ID := 1 |}.

(** The loop of [rpcCall]: [rounds] is the number of iterations left,
    [maxRetries - attempt]. *)
Fixpoint rpcCall_loop {T} `{Decode T} (net : Net) (rpcURL method : string)
    (params : list param) (rounds : nat) (attempt : Z) (lastErr : option error)
    : M (result T) :=
  match rounds with
  | O => ret (Err (ErrRpcExhausted method maxRetries lastErr))
  | S k =>
      let reqBody := request method params in
      match url_error net rpcURL with
      | Some err => ret (Err err)
      | None =>
          resp <- post net rpcURL reqBody ;;
          match resp with
          | TransportFailure err =>
              Sleep (GoTime.Duration_mul retryBackoff (attempt + 1)) ;;;
              rpcCall_loop net rpcURL method params k (attempt + 1) (Some err)
          | Response body =>
              match decode body with
              | Err err =>
                  Sleep (GoTime.Duration_mul retryBackoff (attempt + 1)) ;;;
                  rpcCall_loop net rpcURL method params k (attempt + 1) (Some err)
              | Ok decoded =>
                  match Error decoded with
                  | Some e =>
                      Sleep (GoTime.Duration_mul retryBackoff (attempt + 1)) ;;;
                      rpcCall_loop net rpcURL method params k (attempt + 1)
                        (Some (ErrMsg (Message e)))
                  | None => ret (Ok (Result decoded))
                  end
              end
          end
      end
  end.

Definition rpcCall {T} `{Decode T} (net : Net) (rpcURL method : string)
    (params : list param) : M (result T) :=
  rpcCall_loop net rpcURL method params (Z.to_nat maxRetries) 0 None.

Definition getLatestBlockNumber `{Decode string} (net : Net) (rpcURL : string)
    : M (result Z) :=
  r <- rpcCall (T := string) net rpcURL "eth_blockNumber" [] ;;
  match r with
  | Err err => ret (Err err)
  | Ok hex => ret (Hex.hexToUint64 hex)
  end.

(** The result type is [*block]: [None] is the nil pointer. *)
Definition getBlockTimestamp `{Decode (option block)} (net : Net)
    (rpcURL : string) (height : Z) : M (result Z) :=
  let hexHeight := Hex.toHex height in
  let params := [PString hexHeight; PBool false] in
  r <- rpcCall (T := option block) net rpcURL "eth_getBlockByNumber" params ;;
  match r with
  | Err err => ret (Err err)
  | Ok None => ret (Err (ErrEmptyBlock height))
  | Ok (Some respBlock) =>
      if String.eqb (Timestamp respBlock) "" then ret (Err (ErrEmptyBlock height))
      else ret (Hex.hexToUint64 (Timestamp respBlock))
  end.

(** *** Reading a trace *)

(** The error a single attempt ends with, if it fails: one of the three
    failures the loop retries on. *)
Definition attempt_failure {T} `{Decode T} (r : wire) : option error :=
  match r with
  | TransportFailure err => Some err
  | Response body =>
      match decode (T := T) body with
      | Err err => Some err
      | Ok decoded =>
          match Error decoded with
          | Some e => Some (ErrMsg (Message e))
          | None => None
          end
      end
  end.

Fixpoint sleeps (tr : list Event) : list Z :=
  match tr with
  | [] => []
  | EvSleep d :: r => d :: sleeps r
  | EvPost _ _ :: r => sleeps r
  end.

Fixpoint posts (tr : list Event) : nat :=
  match tr with
  | [] => O
  | EvPost _ _ :: r => S (posts r)
  | EvSleep _ :: r => posts r
  end.

Definition total_backoff (tr : list Event) : Z := fold_right Z.add 0 (sleeps tr).

(** Whether the last thing that happened was a sleep. *)
Definition ends_with_sleep (tr : list Event) : bool :=
  match rev tr with
  | EvSleep _ :: _ => true
  | _ => false
  end.

(** The backoff schedule in the words of the specification, for a call
    whose [attempts] attempts all failed: attempt [i] is followed by a
    sleep of [unit * (i + 1)], except the last one, which is followed by
    none. *)
Definition spec_backoff_schedule (unit : Z) (attempts : nat) (tr : list Event) : Prop :=
  posts tr = attempts /\
  sleeps tr = map (fun i => unit * (Z.of_nat i + 1)) (seq 0 (attempts - 1)) /\
  ends_with_sleep tr = false.

(** An endpoint that refuses every connection. *)
Definition refusing : Net :=
  {| url_error := fun _ => None;
     respond := fun _ _ _ => TransportFailure (ErrMsg "connection refused") |}.

(** An endpoint that refuses the first two connections and then answers
    with the body ["0x10"]. *)
Definition third_time_lucky : Net :=
  {| url_error := fun _ => None;
     respond := fun k _ _ =>
       if (k <? 2)%nat then TransportFailure (ErrMsg "connection reset")
       else Response "0x10" |}.

(** A decoder that takes the whole body for the result. *)
Definition decode_verbatim : Decode string :=
  fun body => Ok {| Result := body; Error := None |}.

End Rpc.

(** ** How a program ends *)

Module Run.

(** What was printed, and how the program stopped: by returning from
    [main], by [os.Exit] with a code and what went to standard error, or
    by a panic. *)
Inductive run (L : Type) : Type :=
| Returned (out : list L)
| Exited (out : list L) (code : Z) (diagnostic : error)
| Panicked (out : list L) (cause : error).
Arguments Returned {L} out.
Arguments Exited {L} out code diagnostic.
Arguments Panicked {L} out cause.

Definition stdout {L} (r : run L) : list L :=
  match r with
  | Returned out => out
  | Exited out _ _ => out
  | Panicked out _ => out
  end.

End Run.
Export Run.

(** ** heimdall_hf_block_calculator.go

    The answers of the Tendermint endpoint are inputs of the model:
    [latest] is what [getLatest] returned, height, time and earliest
    height.  [run] is the body of [main] with the two hardcoded
    arguments as parameters; [main] fixes them. *)

Module heimdall_hf.

Inductive line : Type :=
| CurrentBlock (latestHeight latestTime : Z)
| InThePast (targetTime : Z)
| Prediction (targetTime : Z) (avgBlockTime : float) (delta : Z)
    (blocksToAdd predicted : Z).

(** The instant 2025-09-16T14:00:00Z that the hardcoded string parses to. *)
Definition targetTime_hardcoded : Z := GoTime.Unix 1758031200.

#[warnings="-inexact-float"]
Definition avgBlockTime_hardcoded : float := 1.30%float.

(** [None] stands for a run whose predicted height depends on the
    implementation, the quotient being outside [int64]. *)
Definition run (latest : result (Z * Z * Z)) (targetTime : result Z)
    (avgBlockTime : float) : option (Run.run line) :=
  match latest with
  | Err err => Some (Panicked [] (ErrWrap "get latest" err))
  | Ok (latestHeight, latestTime, _) =>
      let out := [CurrentBlock latestHeight latestTime] in
      match targetTime with
      | Err err => Some (Panicked out (ErrWrap "parse target time" err))
      | Ok targetTime =>
          let delta := GoTime.Sub targetTime latestTime in
          if delta <? 0 then Some (Returned (out ++ [InThePast targetTime]))
          else
            match GoTime.int64_of_float
                    (PrimFloat.div (GoTime.Seconds delta) avgBlockTime) with
            | None => None
            | Some blocksToAdd =>
                let predicted := wrap64 (latestHeight + blocksToAdd) in
                Some (Returned
                        (out ++ [Prediction targetTime avgBlockTime delta
                                   blocksToAdd predicted]))
            end
      end
  end.

Definition main (latest : result (Z * Z * Z)) : option (Run.run line) :=
  run latest (Ok targetTime_hardcoded) avgBlockTime_hardcoded.

(** Whether a predicted height was printed. *)
Definition is_prediction (l : line) : bool :=
  match l with Prediction _ _ _ _ _ => true | _ => false end.

End heimdall_hf.

(** ** heimdall_average_blocktime_calculator.go

    [latest] is what [getLatest] returned and [getBlockTime height] what
    the endpoint answers for a height; every height is asked for at most
    once in a run. *)

Module heimdall_avg.

Inductive line : Type :=
| CurrentBlock (latestHeight latestTime earliestHeight : Z)
| Skip (lb target earliestHeight : Z)
| FetchError (lb target : Z) (err : error)
| Average (lb target latestHeight : Z) (elapsed : Z) (avgSeconds : float).

Definition lookbacks : list Z := [10000; 100000; 1000000; 1500000].

(** The [for] loop over the lookbacks; [out] is what was printed so far. *)
Fixpoint loop (getBlockTime : Z -> result Z)
    (latestHeight latestTime earliestHeight : Z)
    (lbs : list Z) (out : list line) : list line :=
  match lbs with
  | [] => out
  | lb :: rest =>
      let target := wrap64 (latestHeight - lb) in
      if target <? earliestHeight then
        loop getBlockTime latestHeight latestTime earliestHeight rest
          (out ++ [Skip lb target earliestHeight])
      else
        match getBlockTime target with
        | Err err =>
            loop getBlockTime latestHeight latestTime earliestHeight rest
              (out ++ [FetchError lb target err])
        | Ok t0 =>
            let elapsed := GoTime.Sub latestTime t0 in
            let avgSeconds :=
              PrimFloat.div (GoTime.Seconds elapsed) (GoTime.float64_of_int lb) in
            loop getBlockTime latestHeight latestTime earliestHeight rest
              (out ++ [Average lb target latestHeight elapsed avgSeconds])
        end
  end.

Definition main (latest : result (Z * Z * Z)) (getBlockTime : Z -> result Z)
    : Run.run line :=
  match latest with
  | Err err => Panicked [] (ErrWrap "get latest" err)
  | Ok (latestHeight, latestTime, earliestHeight) =>
      Returned
        (loop getBlockTime latestHeight latestTime earliestHeight lookbacks
           [CurrentBlock latestHeight latestTime earliestHeight])
  end.

(** The line the loop prints for one lookback, given the answer to its
    fetch. *)
Definition entry (getBlockTime : Z -> result Z)
    (latestHeight latestTime earliestHeight lb : Z) : line :=
  let target := wrap64 (latestHeight - lb) in
  if target <? earliestHeight then Skip lb target earliestHeight
  else
    match getBlockTime target with
    | Err err => FetchError lb target err
    | Ok t0 =>
        Average lb target latestHeight (GoTime.Sub latestTime t0)
          (PrimFloat.div (GoTime.Seconds (GoTime.Sub latestTime t0))
             (GoTime.float64_of_int lb))
    end.

End heimdall_avg.

(** ** heimdall_block_time_estimator.go

    [fetchHeight] is the answer of the span endpoint and [fetchBlockTime
    height] the answer of the block endpoint for a height. *)

Module estimator.

Definition targetBlock : Z := 8788500.

Inductive line : Type :=
| CurrentHeight (h1 : Z)
| CurrentBlockTime (t1 : Z)
| BlockTimeAgo (t2 : Z)
| AverageBlockTime (avgBlockTime : float)
| EstimatedTime (estimatedTime : Z).

(** [None] stands for a run whose estimate depends on the
    implementation, the seconds left being outside [int64]. *)
Definition main (fetchHeight : result Z) (fetchBlockTime : Z -> result Z)
    : option (Run.run line) :=
  match fetchHeight with
  | Err err => Some (Panicked [] err)
  | Ok h1 =>
      let out := [CurrentHeight h1] in
      match fetchBlockTime h1 with
      | Err err => Some (Panicked out err)
      | Ok t1 =>
          let out := (out ++ [CurrentBlockTime t1])%list in
          match fetchBlockTime (wrap64 (h1 - 2000)) with
          | Err err => Some (Panicked out err)
          | Ok t2 =>
              let out := (out ++ [BlockTimeAgo t2])%list in
              let avgBlockTime :=
                PrimFloat.div (GoTime.Seconds (GoTime.Sub t1 t2)) 2000.0%float in
              let out := (out ++ [AverageBlockTime avgBlockTime])%list in
              let blocksLeft := wrap64 (targetBlock - h1) in
              let secondsLeft :=
                PrimFloat.mul avgBlockTime (GoTime.float64_of_int blocksLeft) in
              match GoTime.int64_of_float secondsLeft with
              | None => None
              | Some whole =>
                  let estimatedTime :=
                    GoTime.Add t1 (GoTime.Duration_mul whole GoTime.Second) in
                  Some (Returned (out ++ [EstimatedTime estimatedTime]))
              end
          end
      end
  end.

(** The seconds left as [main] computes them. *)
Definition secondsLeft (h1 t1 t2 : Z) : float :=
  PrimFloat.mul
    (PrimFloat.div (GoTime.Seconds (GoTime.Sub t1 t2)) 2000.0%float)
    (GoTime.float64_of_int (wrap64 (targetBlock - h1))).

(** The estimate in the words of the specification: the latest block
    time plus the seconds left, nothing else done to it. *)
Definition spec_estimate (t1 : Z) (left : float) (estimatedTime : Z) : Prop :=
  exists q, GoTime.exact left = Some q /\
            (inject_Z (estimatedTime - t1) == q * inject_Z GoTime.Second)%Q.

End estimator.

(** ** bor_average_blocktime_calculator.go *)

Module bor_avg.
Import Rpc.

Record target : Type := {
  kind : string;
  delta : Z;
  value : Z
}.

(** [t.resolve(n)] over [uint64] and [int64]. *)
Definition resolve (t : target) (n : Z) : Z * bool :=
  if String.eqb (kind t) "relative" then
    if delta t >=? 0 then (wrapU64 (n + wrapU64 (delta t)), true)
    else
      let d := wrapU64 (wrap64 (- delta t)) in
      if d >? n then (0, false) else (wrapU64 (n - d), true)
  else if String.eqb (kind t) "absolute" then
    if value t >? n then (0, false) else (value t, true)
  else (0, false).

Definition relative (delta : Z) : target :=
  {| kind := "relative"; delta := delta; value := 0 |}.

Definition targets : list target :=
  [relative 0; relative (-40000); relative (-280000); relative (-560000);
   relative (-1120000)].

(** The loop that collects the heights that resolve. *)
Fixpoint resolve_heights (ts : list target) (n : Z) (heights : list Z) : list Z :=
  match ts with
  | [] => heights
  | t :: rest =>
      match resolve t n with
      | (h, true) => resolve_heights rest n (heights ++ [h])
      | (_, false) => resolve_heights rest n heights
      end
  end.

Record info : Type := {
  height : Z;
  timestamp : Z
}.

Inductive line : Type :=
| CurrentBlock (n timestamp : Z)
| Reference (blockDiff h timestamp n secDiff : Z) (avg : float).

(** A warning on standard error: the height and the error. *)
Definition warning : Type := (Z * error)%type.

(** The loop that fetches the timestamps: a failure is a warning and
    the loop goes on. *)
Fixpoint fetch_loop `{Decode (option block)} (net : Net) (rpcURL : string)
    (heights : list Z) (infos : gmap Z info) (warnings : list warning)
    : M (gmap Z info * list warning) :=
  match heights with
  | [] => ret (infos, warnings)
  | h :: rest =>
      r <- getBlockTimestamp net rpcURL h ;;
      match r with
      | Err err => fetch_loop net rpcURL rest infos (warnings ++ [(h, err)])
      | Ok ts =>
          fetch_loop net rpcURL rest
            (<[h := {| height := h; timestamp := ts |}]> infos) warnings
      end
  end.

(** The closure that makes sure the latest block is among the infos. *)
Definition ensure_latest `{Decode (option block)} (net : Net) (rpcURL : string)
    (n : Z) (infos : gmap Z info) : M (option Z * gmap Z info) :=
  match infos !! n with
  | Some x => ret (Some (timestamp x), infos)
  | None =>
      r <- getBlockTimestamp net rpcURL n ;;
      match r with
      | Err _ => ret (None, infos)
      | Ok ts => ret (Some ts, <[n := {| height := n; timestamp := ts |}]> infos)
      end
  end.

(** The loop that prints one entry per reference height. *)
Fixpoint report_loop (ts : list target) (n nTS : Z) (infos : gmap Z info)
    (out : list line) : list line :=
  match ts with
  | [] => out
  | t :: rest =>
      let '(h, ok) := resolve t n in
      if negb ok || (h =? n) then report_loop rest n nTS infos out
      else
        match infos !! h with
        | None => report_loop rest n nTS infos out
        | Some src =>
            let blockDiff := wrap64 (wrap64 n - wrap64 h) in
            let secDiff := wrap64 (wrap64 nTS - wrap64 (timestamp src)) in
            let avg :=
              if blockDiff =? 0 then PrimFloat.nan
              else PrimFloat.div (GoTime.float64_of_int secDiff)
                     (GoTime.float64_of_int blockDiff) in
            report_loop rest n nTS infos
              (out ++ [Reference blockDiff h (timestamp src) n secDiff avg])
        end
  end.

(** [main]: how it ended, and the warnings on standard error. *)
Definition main `{Decode string} `{Decode (option block)} (net : Net)
    (rpcURL : string) : M (Run.run line * list warning) :=
  r <- getLatestBlockNumber net rpcURL ;;
  match r with
  | Err err => ret (Exited [] 1 (ErrWrap "get latest block number" err), [])
  | Ok n =>
      let heights := resolve_heights targets n [] in
      fetched <- fetch_loop net rpcURL heights ∅ [] ;;
      let '(infos, warnings) := fetched in
      ensured <- ensure_latest net rpcURL n infos ;;
      let '(nTS, infos) := ensured in
      match nTS with
      | None => ret (Exited [] 1 (ErrLatestTimestamp n), warnings)
      | Some nTS =>
          let header :=
            CurrentBlock n
              (match infos !! n with Some x => timestamp x | None => 0 end) in
          ret (Returned (report_loop targets n nTS infos [header]), warnings)
      end
  end.

(** *** Reading a run *)

(** The answers the fetch loop gets, height by height, and the world it
    leaves. *)
Fixpoint fetch_answers `{Decode (option block)} (net : Net) (rpcURL : string)
    (heights : list Z) (w : World) : list (Z * result Z) * World :=
  match heights with
  | [] => ([], w)
  | h :: rest =>
      let '(r, w1) := getBlockTimestamp net rpcURL h w in
      let '(rs, w2) := fetch_answers net rpcURL rest w1 in
      ((h, r) :: rs, w2)
  end.

Fixpoint failures (answers : list (Z * result Z)) : list warning :=
  match answers with
  | [] => []
  | (h, Err err) :: rest => (h, err) :: failures rest
  | (_, Ok _) :: rest => failures rest
  end.

Fixpoint successes_into (answers : list (Z * result Z)) (infos : gmap Z info)
    : gmap Z info :=
  match answers with
  | [] => infos
  | (h, Ok ts) :: rest =>
      successes_into rest (<[h := {| height := h; timestamp := ts |}]> infos)
  | (_, Err _) :: rest => successes_into rest infos
  end.

(** The entry printed for a reference height [h] found among the infos. *)
Definition reference (n nTS h : Z) (src : info) : line :=
  let blockDiff := wrap64 (wrap64 n - wrap64 h) in
  let secDiff := wrap64 (wrap64 nTS - wrap64 (timestamp src)) in
  Reference blockDiff h (timestamp src) n secDiff
    (if blockDiff =? 0 then PrimFloat.nan
     else PrimFloat.div (GoTime.float64_of_int secDiff)
            (GoTime.float64_of_int blockDiff)).

(** Whether a line is the entry of the reference height [h]. *)
Definition is_reference_of (h : Z) (l : line) : bool :=
  match l with
  | Reference _ h' _ _ _ _ => h' =? h
  | CurrentBlock _ _ => false
  end.

(** An endpoint at height 1000000 whose blocks carry the time
    2025-01-01T00:00:00Z and which refuses the third, fourth and fifth
    connection: the three attempts for the second height. *)
Definition flaky : Net :=
  {| url_error := fun _ => None;
     respond := fun k _ _ =>
       if (k =? 0)%nat then Response "0xf4240"
       else if (2 <=? k)%nat && (k <=? 4)%nat
            then TransportFailure (ErrMsg "connection refused")
            else Response "0x67748580" |}.

End bor_avg.

(** ** bor_hf_block_calculator.go

    [target] is what [parseTarget] made of the [-target] flag and
    [avgSecs] the value of the [-avg] flag. *)

Module bor_hf.
Import Rpc.

(** The report of a run: the current block and its time, the target,
    the average, the sign and size of the time difference, the size of
    the rounded block difference with the exact one, and the height. *)
Inductive line : Type :=
| Report (n now target : Z) (avg : float) (sign : string) (delta : Z)
    (blocks : Z) (blocksFloat : float) (height : Z).

Definition absInt64 (v : Z) : Z := if v <? 0 then wrap64 (- v) else v.

(** Step 5 of [main]: the sum in [int64], brought up to zero. *)
Definition predictedHeight (n blocksRounded : Z) : Z :=
  let predicted := wrap64 (wrap64 n + blocksRounded) in
  if predicted <? 0 then 0 else predicted.

(** Steps 3 to 6 of [main]; [None] stands for a run whose rounded block
    difference depends on the implementation. *)
Definition report (n curTS target : Z) (avgSecs : float) : option line :=
  let now := GoTime.Unix (wrap64 curTS) in
  let delta := GoTime.Sub target now in
  let deltaSeconds := GoTime.Seconds delta in
  let avg := avgSecs in
  let blocksFloat := PrimFloat.div deltaSeconds avg in
  match GoTime.int64_of_Round blocksFloat with
  | None => None
  | Some blocksRounded =>
      let predicted := predictedHeight n blocksRounded in
      let sign := if delta <? 0 then "-" else "+" in
      Some (Report n now target avg sign delta (absInt64 blocksRounded)
              blocksFloat (wrapU64 predicted))
  end.

Definition main `{Decode string} `{Decode (option block)} (net : Net)
    (rpcURL : string) (target : result Z) (avgSecs : float)
    : M (option (Run.run line)) :=
  r <- getLatestBlockNumber net rpcURL ;;
  match r with
  | Err err => ret (Some (Exited [] 1 (ErrWrap "get latest block number" err)))
  | Ok n =>
      r <- getBlockTimestamp net rpcURL n ;;
      match r with
      | Err err =>
          ret (Some (Exited [] 1 (ErrWrap "get timestamp for current block" err)))
      | Ok curTS =>
          match target with
          | Err err => ret (Some (Exited [] 1 (ErrWrap "parse target time" err)))
          | Ok target =>
              match report n curTS target avgSecs with
              | None => ret None
              | Some l => ret (Some (Returned [l]))
              end
          end
      end
  end.

(** An endpoint at height 1000 whose blocks all carry the time
    2025-01-01T00:00:00Z, with the two decoders that read its bodies. *)
Definition steady : Net :=
  {| url_error := fun _ => None;
     respond := fun _ _ req =>
       if String.eqb (Method req) "eth_blockNumber" then Response "0x3e8"
       else Response "0x67748580" |}.

Definition decode_timestamp : Decode (option block) :=
  fun body => Ok {| Result := Some {| Number := ""; Timestamp := body |};
                    Error := None |}.

End bor_hf.

(** ** Printed text: decimal numbers, thousands separators, elapsed time *)

Module Text.

(** The first [n] bytes of a string. *)
Fixpoint take (n : nat) (s : string) : string :=
  match n, s with
  | O, _ => EmptyString
  | S _, EmptyString => EmptyString
  | S k, String c r => String c (take k r)
  end.

(** The slice expression [s[lo:hi]]; [None] is the run-time panic for
    bounds out of range. *)
Definition slice (s : string) (lo hi : nat) : option string :=
  if (lo <=? hi)%nat && (hi <=? String.length s)%nat
  then Some (take (hi - lo) (Hex.drop lo s))
  else None.

(** [byte('0' + d)]. *)
Definition dec_digit (d : Z) : ascii := ascii_of_N (Z.to_N (48 + d)).

(** [fmt]'s [%d] for an unsigned integer: the remainder by ten gives a
    digit while the value is at least 10, then the last digit.  Twenty
    rounds cover a 64-bit value. *)
Fixpoint fmt_dec_loop (rounds : nat) (u : Z) (buf : string) : string :=
  match rounds with
  | O => buf
  | S k =>
      if u <? 10 then String (dec_digit u) buf
      else
        let next := u / 10 in
        fmt_dec_loop k next (String (dec_digit (u - next * 10)) buf)
  end.

(** [fmt.Sprintf("%d", u)] for a [uint64]. *)
Definition fmt_u (u : Z) : string := fmt_dec_loop 20 u "".

(** [fmt.Sprintf("%d", v)] for an [int64]: the sign, then the magnitude
    as a [uint64]. *)
Definition fmt_d (v : Z) : string :=
  if v <? 0 then String "-" (fmt_u (wrapU64 (- v))) else fmt_u v.

(** The loop of [withCommasUint64]: [rounds] bounds the iterations, [b]
    is the builder. *)
Fixpoint comma_loop (rounds : nat) (s : string) (n i : nat) (b : string)
    : option string :=
  match rounds with
  | O => Some b
  | S k =>
      if (i <? n)%nat then
        match slice s i (i + 3) with
        | None => None
        | Some g => comma_loop k s n (i + 3) (String.append b (String "," g))
        end
      else Some b
  end.

(** [withCommasUint64] of the Bor predictor, which is [withCommas] of
    the Bor average program; [None] is a panic. *)
Definition withCommasUint64 (u : Z) : option string :=
  let s := fmt_u u in
  let n := String.length s in
  if (n <=? 3)%nat then Some s
  else
    let pre := (n mod 3)%nat in
    let pre := if (pre =? 0)%nat then 3%nat else pre in
    match slice s 0 pre with
    | None => None
    | Some g0 => comma_loop n s n pre g0
    end.

Definition withCommas (u : Z) : option string := withCommasUint64 u.

Definition withCommasInt64 (v : Z) : option string :=
  if v <? 0 then
    match withCommasUint64 (wrapU64 (wrap64 (- v))) with
    | Some s => Some (String "-" s)
    | None => None
    end
  else withCommasUint64 (wrapU64 v).

(** [fmt.Sprintf("%dd %dh %dm %ds", d, h, m, s)]. *)
Definition render (d h m s : Z) : string :=
  String.append (fmt_d d)
    (String.append "d "
       (String.append (fmt_d h)
          (String.append "h "
             (String.append (fmt_d m)
                (String.append "m " (String.append (fmt_d s) "s")))))).

(** The days, hours, minutes and seconds [elapsedDHMS] of the Bor
    average program computes, after it has dropped the sign. *)
Definition dhms (totalSec : Z) : Z * Z * Z * Z :=
  let d := Z.quot totalSec 86400 in
  let r := Z.rem totalSec 86400 in
  let h := Z.quot r 3600 in
  let r := Z.rem r 3600 in
  let m := Z.quot r 60 in
  let s := Z.rem r 60 in
  (d, h, m, s).

(** [elapsedDHMS] of bor_average_blocktime_calculator.go. *)
Definition elapsedDHMS (totalSec : Z) : string :=
  let totalSec := if totalSec <? 0 then wrap64 (- totalSec) else totalSec in
  let '(d, h, m, s) := dhms totalSec in
  render d h m s.

(** The days, hours, minutes and seconds [formatElapsed] computes, in
    [time.Duration] arithmetic, after it has dropped the sign. *)
Definition elapsed_parts (d : Z) : Z * Z * Z * Z :=
  let days := Z.quot d (24 * GoTime.Hour) in
  let d := wrap64 (d - wrap64 (wrap64 (days * 24) * GoTime.Hour)) in
  let hours := Z.quot d GoTime.Hour in
  let d := wrap64 (d - wrap64 (hours * GoTime.Hour)) in
  let mins := Z.quot d GoTime.Minute in
  let d := wrap64 (d - wrap64 (mins * GoTime.Minute)) in
  let secs := Z.quot d GoTime.Second in
  (days, hours, mins, secs).

(** [formatElapsed] of heimdall_average_blocktime_calculator.go. *)
Definition formatElapsed (d : Z) : string :=
  let d := if d <? 0 then wrap64 (- d) else d in
  let '(days, hours, mins, secs) := elapsed_parts d in
  render days hours mins secs.

(** *** Reading a printed number *)

Definition is_dec_digit (ch : ascii) : bool :=
  (48 <=? Hex.byte ch) && (Hex.byte ch <=? 57).

Fixpoint all_dec (s : string) : bool :=
  match s with
  | EmptyString => true
  | String ch r => is_dec_digit ch && all_dec r
  end.

Fixpoint dec_value_from (acc : Z) (s : string) : Z :=
  match s with
  | EmptyString => acc
  | String ch r => dec_value_from (acc * 10 + (Hex.byte ch - 48)) r
  end.

Definition dec_value (s : string) : Z := dec_value_from 0 s.

(** A first group followed by groups that each come after a comma. *)
Fixpoint join_groups (b : string) (gs : list string) : string :=
  match gs with
  | [] => b
  | g :: rest => join_groups (String.append b (String "," g)) rest
  end.

Fixpoint concat_groups (gs : list string) : string :=
  match gs with
  | [] => EmptyString
  | g :: rest => String.append g (concat_groups rest)
  end.

End Text.

(** ** strconv.ParseInt in base 10 with 64 bits

    Modelled after the library: the sign is picked off, [ParseUint]
    accumulates the digits with its two overflow tests, and the
    magnitude is checked against the range of [int64]. *)

Module Strconv.

Inductive numerr : Type :=
| ErrSyntax
| ErrRange.

Definition error_of (e : numerr) : error :=
  match e with
  | ErrSyntax => ErrWrap "strconv.ParseInt" (ErrMsg "invalid syntax")
  | ErrRange => ErrWrap "strconv.ParseInt" (ErrMsg "value out of range")
  end.

(** [c | ('x' - 'X')]. *)
Definition lower (c : Z) : Z := Z.lor c 32.

(** The smallest number whose product with ten exceeds [MaxUint64]. *)
Definition cutoff : Z := MaxUint64 / 10 + 1.

(** The loop of [ParseUint(s, 10, 64)] over the bytes of [s]: the value
    and the error, if any. *)
Fixpoint ParseUint_loop (s : string) (n : Z) : Z * option numerr :=
  match s with
  | EmptyString => (n, None)
  | String ch rest =>
      let c := Hex.byte ch in
      let digit :=
        if (48 <=? c) && (c <=? 57) then Some (c - 48)
        else if (97 <=? lower c) && (lower c <=? 122) then Some (lower c - 97 + 10)
        else None in
      match digit with
      | None => (0, Some ErrSyntax)
      | Some d =>
          if d >=? 10 then (0, Some ErrSyntax)
          else if n >=? cutoff then (MaxUint64, Some ErrRange)
          else
            let n := wrapU64 (n * 10) in
            let n1 := wrapU64 (n + d) in
            if (n1 <? n) || (n1 >? MaxUint64) then (MaxUint64, Some ErrRange)
            else ParseUint_loop rest n1
      end
  end.

Definition ParseUint (s : string) : Z * option numerr :=
  match s with
  | EmptyString => (0, Some ErrSyntax)
  | _ => ParseUint_loop s 0
  end.

Definition ParseInt (s : string) : result Z :=
  match s with
  | EmptyString => Err (error_of ErrSyntax)
  | String c0 rest =>
      let neg := Ascii.eqb c0 "-" in
      let s1 := if Ascii.eqb c0 "+" || Ascii.eqb c0 "-" then rest else s in
      match ParseUint s1 with
      | (_, Some ErrSyntax) => Err (error_of ErrSyntax)
      | (un, _) =>
          let cutoff := 2 ^ 63 in
          if negb neg && (un >=? cutoff) then Err (error_of ErrRange)
          else if neg && (un >? cutoff) then Err (error_of ErrRange)
          else
            let n := wrap64 un in
            Ok (if neg then wrap64 (- n) else n)
      end
  end.

(** [s] is a run of decimal digits, with at most one sign in front,
    that denotes [v]. *)
Definition signed_decimal (s : string) (v : Z) : Prop :=
  exists ds,
    ds <> "" /\ Text.all_dec ds = true /\
    ((s = ds \/ s = String "+" ds) /\ v = Text.dec_value ds \/
     s = String "-" ds /\ v = - Text.dec_value ds).

End Strconv.

(** ** The REST helpers of the Heimdall programs

    [getJSON], [getLatest] and [getBlockTime].  The endpoint answers a
    URL with a failure or with a status and a body; [time.Parse] is a
    parameter. *)

Module Rest.

Record statusResp : Type := {
  LatestBlockHeight : string;
  LatestBlockTime : string;
  EarliestBlockH : string
}.

Record blockResp : Type := {
  Height : string;
  Time : string
}.

Inductive wire : Type :=
| Failure (e : error)
| Response (status : Z) (body : string).

Record Net : Type := {
  url_error : string -> option error;
  get : string -> wire
}.

(** [json.NewDecoder(body).Decode(out)] at the type of [out]. *)
Class DecodeJSON (T : Type) : Type :=
  decode_json : string -> result T.

Definition RFC3339Nano : string := "2006-01-02T15:04:05.999999999Z07:00".

Definition getJSON {T} `{DecodeJSON T} (net : Net) (url : string) : result T :=
  match url_error net url with
  | Some err => Err err
  | None =>
      match get net url with
      | Failure err => Err err
      | Response status body =>
          if (status <? 200) || (status >=? 300) then Err (ErrHTTPStatus status url)
          else decode_json body
      end
  end.

Definition getLatest `{DecodeJSON statusResp} (Parse : string -> string -> result Z)
    (net : Net) (base : string) : result (Z * Z * Z) :=
  let u := String.append base "/status" in
  match getJSON (T := statusResp) net u with
  | Err err => Err err
  | Ok sr =>
      match Strconv.ParseInt (LatestBlockHeight sr) with
      | Err err1 => Err (ErrWrap "parse latest height" err1)
      | Ok h =>
          match Strconv.ParseInt (EarliestBlockH sr) with
          | Err err1 => Err (ErrWrap "parse earliest height" err1)
          | Ok earliest =>
              match Parse RFC3339Nano (LatestBlockTime sr) with
              | Err err1 => Err (ErrWrap "parse latest time" err1)
              | Ok t => Ok (h, t, earliest)
              end
          end
      end
  end.

Definition getBlockTime `{DecodeJSON blockResp} (Parse : string -> string -> result Z)
    (net : Net) (base : string) (height : Z) : result Z :=
  let u := String.append base (String.append "/block?height=" (Text.fmt_d height)) in
  match getJSON (T := blockResp) net u with
  | Err err => Err err
  | Ok br =>
      let ts := Time br in
      if String.eqb ts "" then Err (ErrMsg "empty block time")
      else
        match Parse RFC3339Nano ts with
        | Err err => Err (ErrWrap "parse block time" err)
        | Ok t => Ok t
        end
  end.

(** The two Heimdall programs over an endpoint. *)
Definition average_program `{DecodeJSON statusResp} `{DecodeJSON blockResp}
    (Parse : string -> string -> result Z) (net : Net) (base : string)
    : Run.run heimdall_avg.line :=
  heimdall_avg.main (getLatest Parse net base) (getBlockTime Parse net base).

Definition hf_program `{DecodeJSON statusResp}
    (Parse : string -> string -> result Z) (net : Net) (base : string)
    : option (Run.run heimdall_hf.line) :=
  heimdall_hf.main (getLatest Parse net base).

End Rest.

(** ** Reading the world after a call *)

Module Schedule.
Import Rpc.

(** The sleeps after [j] failed attempts in a row, the first of them
    being attempt [a] (0-indexed). *)
Definition backoffs (a : Z) (j : nat) : list Z :=
  map (fun i => retryBackoff * (a + 1 + Z.of_nat i)) (seq 0 j).

(** [w'] is [w] after the events [tr]: the requests counted, the events
    appended. *)
Definition after (w : World) (tr : list Event) (w' : World) : Prop :=
  w' = {| requests := (requests w + posts tr)%nat; trace := trace w ++ tr |}.

(** The world went from [w] to [w'] with at most [n] requests and at
    most [d] nanoseconds asleep. *)
Definition within (n : nat) (d : Z) (w w' : World) : Prop :=
  exists tr, after w tr w' /\ (posts tr <= n)%nat /\ total_backoff tr <= d.

End Schedule.

(** ** Sample endpoints of the REST helpers *)

Module RestSamples.
Import Rest.

(** An endpoint that answers the status URL and has no block. *)
Definition no_blocks : Net :=
  {| url_error := fun _ => None;
     get := fun url =>
       if String.eqb url "http://heimdall/status" then Response 200 "status"
       else Response 404 "" |}.

Definition decode_status : DecodeJSON statusResp :=
  fun _ => Ok {| LatestBlockHeight := "2000000";
                 LatestBlockTime := "2024-01-01T00:00:00Z";
                 EarliestBlockH := "1" |}.

Definition decode_block : DecodeJSON blockResp :=
  fun body => Ok {| Height := ""; Time := body |}.

(** A stand-in for [time.Parse] that reads every string as the epoch. *)
Definition parse_epoch : string -> string -> result Z := fun _ _ => Ok 0.

(** An endpoint that is down for maintenance. *)
Definition unavailable : Net :=
  {| url_error := fun _ => None;
     get := fun _ => Response 503 "Service Unavailable" |}.

End RestSamples.

(** ** Sample endpoints of the JSON-RPC helpers *)

Module RpcSamples.
Import Rpc.

(** A decoder that reads every body as a response with a null result. *)
Definition decode_null : Decode (option block) :=
  fun _ => Ok {| Result := None; Error := None |}.

(** An endpoint at height 1000000 that answers the first request and
    refuses every later one. *)
Definition one_answer : Net :=
  {| url_error := fun _ => None;
     respond := fun k _ _ =>
       if (k =? 0)%nat then Response "0xf4240"
       else TransportFailure (ErrMsg "connection refused") |}.

(** An endpoint at height 1000000 that refuses the second, third and
    fourth connection, the three attempts for the latest block, and
    answers every later one with the time 2025-01-01T00:00:00Z. *)
Definition slow_start : Net :=
  {| url_error := fun _ => None;
     respond := fun k _ _ =>
       if (k =? 0)%nat then Response "0xf4240"
       else if (k <=? 3)%nat then TransportFailure (ErrMsg "connection refused")
            else Response "0x67748580" |}.

End RpcSamples.

(** ** The time difference line of bor_hf_block_calculator.go *)

Module bor_hf_print.

(** [elapsedDHMS] of bor_hf_block_calculator.go, over a
    [time.Duration]; [None] when the whole seconds depend on the
    implementation. *)
Definition elapsedDHMS (d : Z) : option string :=
  let neg := d <? 0 in
  let d := if neg then wrap64 (- d) else d in
  match GoTime.int64_of_float (GoTime.Seconds d) with
  | None => None
  | Some totalSec =>
      let dd := Z.quot totalSec 86400 in
      let r := Z.rem totalSec 86400 in
      let hh := Z.quot r 3600 in
      let r := Z.rem r 3600 in
      let mm := Z.quot r 60 in
      let ss := Z.rem r 60 in
      let prefix := if neg then "-" else "" in
      Some (String.append prefix (Text.render dd hh mm ss))
  end.

(** The text [main] prints after the label of its time difference
    line: the sign, then the elapsed time. *)
Definition delta_time (delta : Z) : option string :=
  let sign := if delta <? 0 then "-" else "+" in
  match elapsedDHMS delta with
  | None => None
  | Some e => Some (String.append sign e)
  end.

End bor_hf_print.

(* ================================================================== *)
(** * Properties *)

(** ** Hexadecimal quantities *)

Example hexToUint64_ff : Hex.hexToUint64 "0xff" = Ok 255.
Proof. reflexivity. Qed.

Example toHex_255 : Hex.toHex 255 = "0xff".
Proof. reflexivity. Qed.

Section HexLemmas.
Import Hex.

Lemma digit_val_nonneg (ch : ascii) : 0 <= digit_val ch.
Proof.
  unfold digit_val, MaxBase.
  repeat match goal with
  | |- context [if ?b then _ else _] => destruct b eqn:?
  end; lia.
Qed.

Lemma hex_value_from_nonneg (s : string) :
  forall acc, 0 <= acc -> 0 <= hex_value_from acc s.
Proof.
  induction s as [|ch r IH]; intros acc Hacc; simpl; [exact Hacc|].
  apply IH. pose proof (digit_val_nonneg ch). lia.
Qed.

Lemma hex_value_from_app (s1 s2 : string) :
  forall acc,
    hex_value_from acc (String.append s1 s2) = hex_value_from (hex_value_from acc s1) s2.
Proof.
  induction s1 as [|ch r IH]; intros acc; simpl; [reflexivity | apply IH].
Qed.

Lemma all_hex_app (s1 s2 : string) :
  all_hex (String.append s1 s2) = all_hex s1 && all_hex s2.
Proof.
  induction s1 as [|ch r IH]; simpl; [reflexivity|].
  rewrite IH. apply andb_assoc.
Qed.

(** On a string of hexadecimal digits the scanner reads everything. *)
Lemma nat_scan_all_hex (s : string) :
  forall acc count,
    all_hex s = true ->
    nat_scan 16 s acc count = (hex_value_from acc s, (count + String.length s)%nat, "").
Proof.
  induction s as [|ch r IH]; intros acc count Hs; simpl in *.
  - rewrite Nat.add_0_r. reflexivity.
  - apply andb_true_iff in Hs as [Hch Hr].
    unfold is_hex_digit in Hch. apply Z.ltb_lt in Hch.
    destruct (digit_val ch >=? 16) eqn:E; [apply Z.geb_le in E; lia|].
    rewrite IH by exact Hr. f_equal. f_equal. lia.
Qed.

(** Otherwise it stops in front of the first byte that is not one. *)
Lemma nat_scan_not_all_hex (s : string) :
  forall acc count,
    all_hex s = false ->
    exists v n ch r, nat_scan 16 s acc count = (v, n, String ch r).
Proof.
  induction s as [|ch r IH]; intros acc count Hs; simpl in *; [discriminate|].
  destruct (digit_val ch >=? 16) eqn:E.
  - exists acc, count, ch, r. reflexivity.
  - unfold is_hex_digit in Hs.
    assert (Hlt : (digit_val ch <? 16) = true).
    { apply Z.ltb_lt. rewrite Z.geb_leb in E. apply Z.leb_gt in E. exact E. }
    rewrite Hlt in Hs. simpl in Hs. apply IH. exact Hs.
Qed.

Lemma scanSign_split (s : string) :
  s <> "" -> scanSign s = Some (split_sign s).
Proof.
  destruct s as [|ch r]; [congruence|]; intros _; simpl.
  destruct (Ascii.eqb ch "-"); [reflexivity|].
  destruct (Ascii.eqb ch "+"); reflexivity.
Qed.

(** [SetString] in base 16, read declaratively. *)
Lemma SetString_16 (s : string) :
  SetString s 16 =
    let '(neg, ds) := split_sign s in
    if String.eqb ds "" || negb (all_hex ds) then None
    else Some (if neg then - hex_value ds else hex_value ds).
Proof.
  destruct s as [|c0 r0]; [reflexivity|].
  unfold SetString. rewrite scanSign_split by congruence.
  destruct (split_sign (String c0 r0)) as [neg ds].
  destruct (all_hex ds) eqn:Hh.
  - rewrite nat_scan_all_hex by exact Hh.
    destruct ds as [|ch r]; reflexivity.
  - destruct (nat_scan_not_all_hex ds 0 O Hh) as (v & n & ch & r & ->).
    rewrite orb_true_r. destruct n; reflexivity.
Qed.

End HexLemmas.

Section HexParsing.
Import Hex.

(** [hexToUint64] as a decision on the sign and the digits of the body. *)
Lemma hexToUint64_spec (h : string) :
  hexToUint64 h =
    let b := strip0x h in
    let '(neg, ds) := split_sign b in
    if String.eqb ds "" || negb (all_hex ds) then
      if String.eqb b "" then Err ErrEmptyHex else Err (ErrInvalidHex b)
    else if (neg && negb (hex_value ds =? 0)) || (MaxUint64 <? hex_value ds)
         then Err (ErrHexRange b)
         else Ok (hex_value ds).
Proof.
  unfold hexToUint64. cbv zeta. set (b := strip0x h).
  rewrite SetString_16.
  destruct (split_sign b) as [neg ds] eqn:Hsp.
  destruct (String.eqb_spec b "") as [Hb|Hb].
  - rewrite Hb in Hsp. injection Hsp as <- <-. reflexivity.
  - destruct (String.eqb ds "" || negb (all_hex ds)) eqn:Hbad; [reflexivity|].
    pose proof (hex_value_from_nonneg ds 0 ltac:(lia)) as Hnn.
    fold (hex_value ds) in Hnn.
    unfold Sign, IsUint64, Uint64, wrapU64, two64, MaxUint64.
    destruct neg; simpl andb.
    + destruct (Z.eqb_spec (hex_value ds) 0) as [E|E].
      * rewrite E. reflexivity.
      * assert (H1 : (Z.sgn (- hex_value ds) <? 0) = true)
          by (apply Z.ltb_lt; lia).
        rewrite H1. reflexivity.
    + assert (H1 : (Z.sgn (hex_value ds) <? 0) = false)
        by (apply Z.ltb_ge; lia).
      rewrite H1. simpl orb.
      assert (H2 : (0 <=? hex_value ds) = true) by (apply Z.leb_le; lia).
      rewrite H2. simpl andb.
      destruct (Z.ltb_spec (2 ^ 64 - 1) (hex_value ds)) as [L|L].
      * assert (H3 : (hex_value ds <=? 2 ^ 64 - 1) = false)
          by (apply Z.leb_gt; lia).
        rewrite H3. reflexivity.
      * assert (H3 : (hex_value ds <=? 2 ^ 64 - 1) = true)
          by (apply Z.leb_le; lia).
        rewrite H3. simpl. f_equal.
        rewrite Z.abs_eq by lia. apply Z.mod_small. lia.
Qed.

End HexParsing.

Section HexRoundTrip.
Import Hex.

Lemma hex_digit_val (d : Z) : 0 <= d < 16 -> digit_val (hex_digit d) = d.
Proof.
  intros Hd.
  assert (E : d = 0 \/ d = 1 \/ d = 2 \/ d = 3 \/ d = 4 \/ d = 5 \/ d = 6 \/
              d = 7 \/ d = 8 \/ d = 9 \/ d = 10 \/ d = 11 \/ d = 12 \/
              d = 13 \/ d = 14 \/ d = 15) by lia.
  repeat (destruct E as [E|E]; [subst d; reflexivity|]).
  subst d; reflexivity.
Qed.

Lemma hex_digit_is_hex (d : Z) : 0 <= d < 16 -> is_hex_digit (hex_digit d) = true.
Proof.
  intros Hd. unfold is_hex_digit. rewrite hex_digit_val by exact Hd.
  apply Z.ltb_lt. lia.
Qed.

Lemma append_snoc (s : string) (c : ascii) (t : string) :
  String.append (String.append s (String c "")) t = String.append s (String c t).
Proof.
  induction s as [|a s IH]; [reflexivity|].
  change (String a (String.append (String.append s (String c "")) t)
          = String a (String.append s (String c t))).
  f_equal. exact IH.
Qed.

(** The formatting loop writes, in front of the buffer, a rendering of
    its argument. *)
Lemma fmt_hex_loop_rendering (k : nat) :
  forall u buf,
    0 <= u < 16 ^ Z.of_nat (S k) ->
    exists ds,
      fmt_hex_loop (S k) u buf = String.append ds buf /\ hex_rendering ds u.
Proof.
  induction k as [|k IH]; intros u buf Hu.
  - change (16 ^ Z.of_nat 1) with 16 in Hu.
    exists (String (hex_digit u) ""). simpl.
    destruct (Z.ltb_spec u 16) as [_|?]; [|lia].
    split; [reflexivity|]. unfold hex_rendering, hex_value. simpl.
    rewrite hex_digit_is_hex, hex_digit_val by lia. repeat split; congruence.
  - change (fmt_hex_loop (S (S k)) u buf) with
      (if u <? 16 then String (hex_digit u) buf
       else fmt_hex_loop (S k) (Z.shiftr u 4) (String (hex_digit (Z.land u 15)) buf)).
    destruct (Z.ltb_spec u 16) as [Hlt|Hge].
    + exists (String (hex_digit u) "").
      split; [reflexivity|]. unfold hex_rendering, hex_value. simpl.
      rewrite hex_digit_is_hex, hex_digit_val by lia. repeat split; congruence.
    + assert (Hq : Z.shiftr u 4 = u / 16) by (rewrite Z.shiftr_div_pow2 by lia; reflexivity).
      assert (Hr : Z.land u 15 = u mod 16).
      { change 15 with (Z.ones 4). rewrite Z.land_ones by lia. reflexivity. }
      assert (Hpow : 16 ^ Z.of_nat (S (S k)) = 16 * 16 ^ Z.of_nat (S k)).
      { rewrite (Nat2Z.inj_succ (S k)). rewrite Z.pow_succ_r by lia. reflexivity. }
      assert (Hm : 0 <= u mod 16 < 16) by (apply Z.mod_pos_bound; lia).
      destruct (IH (Z.shiftr u 4) (String (hex_digit (Z.land u 15)) buf))
        as (ds & Hds & Hne & Hall & Hval).
      { rewrite Hq. split; [apply Z.div_pos; lia|].
        apply Z.div_lt_upper_bound; lia. }
      exists (String.append ds (String (hex_digit (Z.land u 15)) "")).
      split; [rewrite Hds; symmetry; apply append_snoc|].
      unfold hex_rendering, hex_value in *. repeat split.
      * destruct ds; discriminate.
      * rewrite all_hex_app, Hall. simpl.
        rewrite Hr, hex_digit_is_hex by exact Hm. reflexivity.
      * rewrite hex_value_from_app, Hval. simpl.
        rewrite Hr, hex_digit_val, Hq by exact Hm.
        pose proof (Z.div_mod u 16 ltac:(lia)). lia.
Qed.

Lemma fmt_x_rendering (v : Z) : is_uint64 v -> hex_rendering (fmt_x v) v.
Proof.
  intros [Hlo Hhi]. unfold fmt_x.
  destruct (fmt_hex_loop_rendering 15 v "") as (ds & Hds & Hr).
  { unfold MaxUint64 in Hhi. change (16 ^ Z.of_nat 16) with (2 ^ 64). lia. }
  rewrite Hds.
  replace (String.append ds "") with ds; [exact Hr|].
  clear. induction ds as [|a s IH]; [reflexivity|].
  change (String a s = String a (String.append s "")). f_equal. exact IH.
Qed.

(** A run of hexadecimal digits neither starts with a sign nor with the
    prefix, so the two opening steps leave it alone. *)
Lemma split_sign_digits (ds : string) :
  all_hex ds = true -> split_sign ds = (false, ds).
Proof.
  destruct ds as [|c r]; [reflexivity|]. simpl. intros H.
  apply andb_true_iff in H as [Hc _].
  destruct (Ascii.eqb_spec c "-") as [->|_]; [discriminate Hc|].
  destruct (Ascii.eqb_spec c "+") as [->|_]; [discriminate Hc|].
  reflexivity.
Qed.

Lemma strip0x_digits (ds : string) : all_hex ds = true -> strip0x ds = ds.
Proof.
  intros H. unfold strip0x.
  destruct ds as [|c1 [|c2 r]]; [reflexivity | |].
  { simpl. now rewrite !andb_false_r. }
  simpl in H. apply andb_true_iff in H as [_ H].
  apply andb_true_iff in H as [Hc2 _].
  simpl.
  destruct (Ascii.eqb_spec c2 "x") as [->|_]; [discriminate Hc2|].
  destruct (Ascii.eqb_spec c2 "X") as [->|_]; [discriminate Hc2|].
  now rewrite !andb_false_r.
Qed.

Lemma strip0x_prefixed (ds : string) : strip0x (String.append "0x" ds) = ds.
Proof.
  change (String.append "0x" ds) with (String "0" (String "x" ds)).
  reflexivity.
Qed.

Lemma hexToUint64_digits (ds : string) (v : Z) :
  is_uint64 v -> hex_rendering ds v ->
  forall h, strip0x h = ds -> hexToUint64 h = Ok v.
Proof.
  intros [Hlo Hhi] (Hne & Hall & Hval) h Hh.
  rewrite hexToUint64_spec. cbv zeta. rewrite Hh.
  rewrite split_sign_digits by exact Hall.
  rewrite Hall, Hval. simpl.
  destruct (String.eqb_spec ds "") as [E|_]; [congruence|]. simpl.
  destruct (Z.ltb_spec MaxUint64 v) as [?|_]; [lia|]. reflexivity.
Qed.

(** C3. For every [v] in [0, 2^64 - 1], [hexToUint64] returns [v] on
    every hexadecimal rendering of [v] (digits of either case, leading
    zeros allowed), bare or behind the [0x] prefix, and in particular on
    [toHex v], the rendering the programs themselves send. *)
Theorem hexToUint64_roundtrip (v : Z) :
  is_uint64 v ->
  (forall ds, hex_rendering ds v ->
     hexToUint64 ds = Ok v /\ hexToUint64 (String.append "0x" ds) = Ok v) /\
  hexToUint64 (toHex v) = Ok v.
Proof.
  intros Hv. split.
  - intros ds Hr. split.
    + apply (hexToUint64_digits ds v Hv Hr).
      apply strip0x_digits. apply Hr.
    + apply (hexToUint64_digits ds v Hv Hr). apply strip0x_prefixed.
  - apply (hexToUint64_digits (fmt_x v) v Hv (fmt_x_rendering v Hv)).
    apply strip0x_prefixed.
Qed.

Lemma hexToUint64_roundtrip_witness :
  is_uint64 48879 /\
  hexToUint64 "BEEF" = Ok 48879 /\ hexToUint64 (toHex 48879) = Ok 48879.
Proof.
  assert (Hv : is_uint64 48879) by (unfold is_uint64, MaxUint64; lia).
  destruct (hexToUint64_roundtrip 48879 Hv) as [Hall Hto].
  split; [exact Hv|]. split; [|exact Hto].
  apply (Hall "BEEF"). unfold hex_rendering. repeat split. discriminate.
Defined.

(** C4 (as amended). [hexToUint64] returns an error exactly on the
    [rejected] inputs: a body (what is left after the optional prefix)
    with no digit, a byte other than a hexadecimal digit after one
    optional leading sign, a minus sign in front of a non-zero
    magnitude, or a magnitude above [2^64 - 1]; among them the empty
    string, the bare prefix and ["xyz"].  A leading [+] and a negative
    zero are accepted. *)
Theorem hexToUint64_rejects_exactly :
  (forall h, (exists e, hexToUint64 h = Err e) <-> rejected h) /\
  hexToUint64 "" = Err ErrEmptyHex /\
  hexToUint64 "0x" = Err ErrEmptyHex /\
  hexToUint64 "xyz" = Err (ErrInvalidHex "xyz") /\
  hexToUint64 "-1" = Err (ErrHexRange "-1") /\
  hexToUint64 "0x10000000000000000" = Err (ErrHexRange "10000000000000000").
Proof.
  split; [|repeat split].
  intros h. rewrite hexToUint64_spec. unfold rejected. cbv zeta.
  destruct (split_sign (strip0x h)) as [neg ds].
  destruct (String.eqb_spec ds "") as [E|E]; simpl.
  { split; [tauto|]. intros _. destruct (String.eqb (strip0x h) ""); eauto. }
  destruct (all_hex ds) eqn:Hall; simpl.
  2:{ split; [tauto|]. intros _. destruct (String.eqb (strip0x h) ""); eauto. }
  destruct (Z.ltb_spec MaxUint64 (hex_value ds)) as [L|L];
    destruct (Z.eqb_spec (hex_value ds) 0) as [Z0|Z0];
    destruct neg; simpl; split;
    try (intros _; eauto; tauto);
    try (intros [e He]; discriminate He);
    intros [?|[?|[[? ?]|?]]]; try congruence; try lia.
Qed.

(** C4, counterexample: ["-0"] carries a negative sign, and a character
    that is not a hexadecimal digit, yet [hexToUint64] returns 0. *)
Lemma hexToUint64_accepts_negative_zero :
  spec_bad_input "-0" /\ hexToUint64 "-0" = Ok 0 /\ ~ spec_rejects_bad_inputs.
Proof.
  assert (Hbad : spec_bad_input "-0") by (right; left; reflexivity).
  split; [exact Hbad|]. split; [reflexivity|].
  intros H. destruct (H "-0" Hbad) as [e He]. discriminate He.
Qed.

End HexRoundTrip.

(** ** The retry loop of [rpcCall] *)

Section RetryLoop.
Import Rpc.
Context {T : Type} `{HD : Decode T}.
Variables (net : Net) (rpcURL method : string) (params : list param).


(** One failed attempt: the request is sent, the helper sleeps
    [retryBackoff * (attempt + 1)], and the loop goes on with one round
    less and the failure as last error. *)
Lemma rpcCall_loop_retry (k : nat) (attempt : Z) (lastErr : option error)
    (w : World) (e : error) :
  url_error net rpcURL = None ->
  attempt_failure (T := T) (respond net (requests w) rpcURL (request method params)) = Some e ->
  rpcCall_loop (T := T) net rpcURL method params (S k) attempt lastErr w =
  rpcCall_loop (T := T) net rpcURL method params k (attempt + 1) (Some e)
    {| requests := S (requests w);
       trace := trace w ++ [EvPost rpcURL (request method params);
                            EvSleep (GoTime.Duration_mul retryBackoff (attempt + 1))] |}.
Proof using Type.
  intros Hurl Hfail. simpl. rewrite Hurl.
  unfold bind at 1. unfold post at 1. unfold attempt_failure in Hfail.
  destruct (respond net (requests w) rpcURL (request method params)) as [err|body].
  - injection Hfail as ->. unfold bind, Sleep. simpl.
    rewrite <- app_assoc. reflexivity.
  - destruct (decode body) as [decoded|err].
    + destruct (Error decoded) as [re|]; [|discriminate].
      injection Hfail as <-. unfold bind, Sleep. simpl.
      rewrite <- app_assoc. reflexivity.
    + injection Hfail as ->. unfold bind, Sleep. simpl.
      rewrite <- app_assoc. reflexivity.
Qed.

(** One successful attempt ends the loop with the decoded result. *)
Lemma rpcCall_loop_success (k : nat) (attempt : Z) (lastErr : option error)
    (w : World) (body : string) (decoded : rpcResponse T) :
  url_error net rpcURL = None ->
  respond net (requests w) rpcURL (request method params) = Response body ->
  decode body = Ok decoded ->
  Error decoded = None ->
  rpcCall_loop (T := T) net rpcURL method params (S k) attempt lastErr w =
  (Ok (Result decoded),
   {| requests := S (requests w); trace := trace w ++ [EvPost rpcURL (request method params)] |}).
Proof using Type.
  intros Hurl Hresp Hdec Herr. simpl. rewrite Hurl.
  unfold bind, post. rewrite Hresp, Hdec, Herr. reflexivity.
Qed.

(** A transport failure is a failed attempt. *)
Lemma transport_failure_fails (r : wire) (e : error) :
  r = TransportFailure e -> attempt_failure (T := T) r = Some e.
Proof using Type. intros ->. reflexivity. Qed.

(** C1 (as amended). When the URL is well formed and the three attempts
    of a call all fail (in transport, in decoding, or with a populated
    error field), [rpcCall] sends exactly [maxRetries] = 3 requests and
    returns the exhaustion error that carries the failure of the last
    attempt.  Every failed attempt, the last one included, is followed
    by a sleep of [retryBackoff] times its 1-based number: the total
    backoff is [retryBackoff * (1 + 2 + 3)], which is at least
    [retryBackoff * (1 + 2)]. *)
Theorem rpcCall_exhausted (w : World) (e0 e1 e2 : error) :
  url_error net rpcURL = None ->
  attempt_failure (T := T)
    (respond net (requests w) rpcURL (request method params)) = Some e0 ->
  attempt_failure (T := T)
    (respond net (S (requests w)) rpcURL (request method params)) = Some e1 ->
  attempt_failure (T := T)
    (respond net (S (S (requests w))) rpcURL (request method params)) = Some e2 ->
  exists tr,
    rpcCall (T := T) net rpcURL method params w =
      (Err (ErrRpcExhausted method maxRetries (Some e2)),
       {| requests := (requests w + 3)%nat; trace := trace w ++ tr |}) /\
    tr = [EvPost rpcURL (request method params); EvSleep (retryBackoff * 1);
          EvPost rpcURL (request method params); EvSleep (retryBackoff * 2);
          EvPost rpcURL (request method params); EvSleep (retryBackoff * 3)] /\
    posts tr = Z.to_nat maxRetries /\
    total_backoff tr = retryBackoff * (1 + 2 + 3) /\
    retryBackoff * (1 + 2) <= total_backoff tr.
Proof using Type.
  intros Hurl H0 H1 H2. eexists. split; [|split; [reflexivity|]].
  - unfold rpcCall. change (Z.to_nat maxRetries) with 3%nat.
    rewrite (rpcCall_loop_retry _ _ _ w e0 Hurl H0).
    rewrite (rpcCall_loop_retry _ _ _ {| requests := S (requests w) |} e1 Hurl H1).
    rewrite (rpcCall_loop_retry _ _ _ {| requests := S (S (requests w)) |} e2 Hurl H2).
    simpl. unfold ret. rewrite <- !app_assoc. simpl.
    repeat f_equal. lia.
  - repeat split. vm_compute. discriminate.
Qed.

(** C2. When the URL is well formed, the first two attempts fail in
    transport and the third is answered with an envelope that decodes
    and carries no error, [rpcCall] returns the decoded result after
    exactly three requests, with the two backoff sleeps in between. *)
Theorem rpcCall_third_attempt_succeeds (w : World) (e0 e1 : error)
    (body : string) (decoded : rpcResponse T) :
  url_error net rpcURL = None ->
  respond net (requests w) rpcURL (request method params) = TransportFailure e0 ->
  respond net (S (requests w)) rpcURL (request method params) = TransportFailure e1 ->
  respond net (S (S (requests w))) rpcURL (request method params) = Response body ->
  decode body = Ok decoded ->
  Error decoded = None ->
  exists tr,
    rpcCall (T := T) net rpcURL method params w =
      (Ok (Result decoded),
       {| requests := (requests w + 3)%nat; trace := trace w ++ tr |}) /\
    tr = [EvPost rpcURL (request method params); EvSleep (retryBackoff * 1);
          EvPost rpcURL (request method params); EvSleep (retryBackoff * 2);
          EvPost rpcURL (request method params)] /\
    posts tr = Z.to_nat maxRetries.
Proof using Type.
  intros Hurl H0 H1 H2 Hdec Herr. eexists. split; [|split; reflexivity].
  unfold rpcCall. change (Z.to_nat maxRetries) with 3%nat.
  rewrite (rpcCall_loop_retry _ _ _ w e0 Hurl (transport_failure_fails _ _ H0)).
  rewrite (rpcCall_loop_retry _ _ _ {| requests := S (requests w) |} e1 Hurl
             (transport_failure_fails _ _ H1)).
  rewrite (rpcCall_loop_success _ _ _ {| requests := S (S (requests w)) |}
             body decoded Hurl H2 Hdec Herr).
  simpl. rewrite <- !app_assoc. simpl. repeat f_equal. lia.
Qed.

End RetryLoop.

Lemma rpcCall_exhausted_witness :
  exists tr,
    Rpc.rpcCall (H := Rpc.decode_verbatim) Rpc.refusing
      "http://bor" "eth_blockNumber" [] Rpc.start =
      (Err (ErrRpcExhausted "eth_blockNumber" Rpc.maxRetries
              (Some (ErrMsg "connection refused"))),
       {| Rpc.requests := 3; Rpc.trace := [] ++ tr |}) /\
    tr = [Rpc.EvPost "http://bor" (Rpc.request "eth_blockNumber" []);
          Rpc.EvSleep (Rpc.retryBackoff * 1);
          Rpc.EvPost "http://bor" (Rpc.request "eth_blockNumber" []);
          Rpc.EvSleep (Rpc.retryBackoff * 2);
          Rpc.EvPost "http://bor" (Rpc.request "eth_blockNumber" []);
          Rpc.EvSleep (Rpc.retryBackoff * 3)] /\
    Rpc.posts tr = Z.to_nat Rpc.maxRetries /\
    Rpc.total_backoff tr = Rpc.retryBackoff * (1 + 2 + 3) /\
    Rpc.retryBackoff * (1 + 2) <= Rpc.total_backoff tr.
Proof.
  exact (rpcCall_exhausted (HD := Rpc.decode_verbatim) Rpc.refusing
           "http://bor" "eth_blockNumber" [] Rpc.start
           (ErrMsg "connection refused") (ErrMsg "connection refused")
           (ErrMsg "connection refused") eq_refl eq_refl eq_refl eq_refl).
Defined.

(** C1, counterexample: against an endpoint that refuses every
    connection the helper sleeps three times, the third time after its
    last attempt, so the schedule of the specification (no sleep after
    the final failed attempt) is not the one it follows. *)
Lemma rpcCall_sleeps_after_final_attempt :
  let tr := Rpc.trace (snd (Rpc.rpcCall (H := Rpc.decode_verbatim) Rpc.refusing
                              "http://bor" "eth_blockNumber" [] Rpc.start)) in
  Rpc.posts tr = 3%nat /\
  Rpc.sleeps tr = [600000000; 1200000000; 1800000000] /\
  Rpc.ends_with_sleep tr = true /\
  ~ Rpc.spec_backoff_schedule Rpc.retryBackoff 3 tr.
Proof.
  cbv zeta. repeat split.
  intros (_ & Hsleeps & _). vm_compute in Hsleeps. discriminate Hsleeps.
Qed.

Lemma rpcCall_third_attempt_succeeds_witness :
  exists tr,
    Rpc.rpcCall (H := Rpc.decode_verbatim) Rpc.third_time_lucky
      "http://bor" "eth_blockNumber" [] Rpc.start =
      (Ok "0x10", {| Rpc.requests := 3; Rpc.trace := [] ++ tr |}) /\
    tr = [Rpc.EvPost "http://bor" (Rpc.request "eth_blockNumber" []);
          Rpc.EvSleep (Rpc.retryBackoff * 1);
          Rpc.EvPost "http://bor" (Rpc.request "eth_blockNumber" []);
          Rpc.EvSleep (Rpc.retryBackoff * 2);
          Rpc.EvPost "http://bor" (Rpc.request "eth_blockNumber" [])] /\
    Rpc.posts tr = Z.to_nat Rpc.maxRetries.
Proof.
  exact (rpcCall_third_attempt_succeeds (HD := Rpc.decode_verbatim)
           Rpc.third_time_lucky "http://bor" "eth_blockNumber" [] Rpc.start
           (ErrMsg "connection reset") (ErrMsg "connection reset") "0x10"
           {| Rpc.Result := "0x10"; Rpc.Error := None |}
           eq_refl eq_refl eq_refl eq_refl eq_refl eq_refl).
Defined.

(** ** Fixed-width arithmetic *)

Section Wrapping.

Lemma wrap64_small (z : Z) : is_int64 z -> wrap64 z = z.
Proof.
  unfold is_int64, MinInt64, MaxInt64, wrap64, two64. intros Hz.
  rewrite Z.mod_small by lia. lia.
Qed.

Lemma wrap64_range (z : Z) : is_int64 (wrap64 z).
Proof.
  unfold is_int64, MinInt64, MaxInt64, wrap64, two64.
  pose proof (Z.mod_pos_bound (z + 2 ^ 63) (2 ^ 64) ltac:(lia)). lia.
Qed.

Lemma wrapU64_small (z : Z) : is_uint64 z -> wrapU64 z = z.
Proof.
  unfold is_uint64, MaxUint64, wrapU64, two64. intros Hz.
  apply Z.mod_small. lia.
Qed.

(** The [int64] reading of a [uint64]: itself in the lower half, itself
    less [2^64] in the upper half. *)
Lemma wrap64_uint64 (n : Z) :
  is_uint64 n -> wrap64 n = if n <=? MaxInt64 then n else n - two64.
Proof.
  unfold is_uint64, MaxUint64, MaxInt64, wrap64, two64. intros Hn.
  destruct (Z.leb_spec n (2 ^ 63 - 1)) as [Hle|Hgt].
  - rewrite Z.mod_small by lia. lia.
  - replace (n + 2 ^ 63) with ((n - 2 ^ 63) + 1 * 2 ^ 64) by lia.
    rewrite Z.mod_add by lia. rewrite Z.mod_small by lia. lia.
Qed.

End Wrapping.

(** ** Lookback targets *)

Section Lookback.
Import bor_avg.

(** A relative target at or below the latest height resolves to the
    height it names, unless that height is below zero. *)
Lemma resolve_relative (n d : Z) :
  is_uint64 n -> is_int64 d -> d <= 0 ->
  resolve (relative d) n = if n + d <? 0 then (0, false) else (n + d, true).
Proof.
  intros Hn Hd Hle. unfold resolve, relative. simpl.
  pose proof Hn as Hn'. pose proof Hd as Hd'.
  unfold is_uint64, MaxUint64 in Hn'. unfold is_int64, MinInt64, MaxInt64 in Hd'.
  destruct (Z.eqb_spec d 0) as [->|Hnz].
  - simpl. rewrite Z.add_0_r. change (wrapU64 0) with 0. rewrite Z.add_0_r.
    rewrite wrapU64_small by exact Hn.
    destruct (Z.ltb_spec n 0); [lia | reflexivity].
  - destruct (Z.geb_spec d 0) as [?|_]; [lia|].
    assert (Hmag : wrapU64 (wrap64 (- d)) = - d).
    { destruct (Z.eq_dec d (- 2 ^ 63)) as [->|Hne]; [reflexivity|].
      rewrite wrap64_small by (unfold is_int64, MinInt64, MaxInt64; lia).
      apply wrapU64_small. unfold is_uint64, MaxUint64. lia. }
    rewrite Hmag.
    destruct (Z.gtb_spec (- d) n) as [Hgt|Hngt];
      destruct (Z.ltb_spec (n + d) 0) as [Hlt|Hge]; try lia; [reflexivity|].
    replace (n - - d) with (n + d) by lia.
    rewrite wrapU64_small by (unfold is_uint64, MaxUint64; lia). reflexivity.
Qed.

(** The Heimdall loop skips a lookback whose target is below the
    earliest available height, without fetching. *)
Lemma heimdall_loop_skip (getBlockTime : Z -> result Z)
    (latestHeight latestTime earliestHeight lb : Z)
    (rest : list Z) (out : list heimdall_avg.line) :
  0 <= latestHeight <= MaxInt64 -> 0 <= lb <= MaxInt64 ->
  latestHeight - lb < earliestHeight ->
  heimdall_avg.loop getBlockTime latestHeight latestTime earliestHeight
    (lb :: rest) out =
  heimdall_avg.loop getBlockTime latestHeight latestTime earliestHeight rest
    (out ++ [heimdall_avg.Skip lb (latestHeight - lb) earliestHeight]).
Proof.
  intros Hh Hlb Hlt. simpl.
  rewrite wrap64_small by (unfold is_int64, MinInt64, MaxInt64 in *; lia).
  destruct (Z.ltb_spec (latestHeight - lb) earliestHeight); [reflexivity | lia].
Qed.

(** C5. [resolve] is a function of the target and the latest height
    alone.  With latest height 1000 the relative offsets -2000, -500 and
    0 resolve to unavailable, 500 and 1000.  In general a relative
    offset at or below zero resolves to the height it names, and to
    unavailable (no error) when that height would be below zero; the
    Heimdall program skips, without fetching and without stopping, a
    lookback whose target is below the earliest available height, and
    so any target below zero when the earliest height is not negative. *)
Theorem lookback_resolution :
  resolve (relative (-2000)) 1000 = (0, false) /\
  resolve (relative (-500)) 1000 = (500, true) /\
  resolve (relative 0) 1000 = (1000, true) /\
  (forall n d, is_uint64 n -> is_int64 d -> d <= 0 ->
     resolve (relative d) n = if n + d <? 0 then (0, false) else (n + d, true)) /\
  (forall getBlockTime latestHeight latestTime earliestHeight lb rest out,
     0 <= latestHeight <= MaxInt64 -> 0 <= lb <= MaxInt64 ->
     latestHeight - lb < earliestHeight \/
     (0 <= earliestHeight /\ latestHeight - lb < 0) ->
     heimdall_avg.loop getBlockTime latestHeight latestTime earliestHeight
       (lb :: rest) out =
     heimdall_avg.loop getBlockTime latestHeight latestTime earliestHeight rest
       (out ++ [heimdall_avg.Skip lb (latestHeight - lb) earliestHeight])).
Proof.
  split; [reflexivity|]. split; [reflexivity|]. split; [reflexivity|].
  split.
  - exact resolve_relative.
  - intros getBlockTime latestHeight latestTime earliestHeight lb rest out Hh Hlb Hbelow.
    apply heimdall_loop_skip; [exact Hh | exact Hlb | lia].
Qed.

Lemma lookback_resolution_witness :
  resolve (relative (-2000)) 100 = (0, false) /\
  heimdall_avg.loop (fun _ => Err (ErrMsg "unreachable")) 100 0 1 [10000] [] =
    [heimdall_avg.Skip 10000 (-9900) 1].
Proof.
  destruct lookback_resolution as (_ & _ & _ & Hbor & Hheimdall). split.
  - apply (Hbor 100 (-2000));
      unfold is_uint64, is_int64, MaxUint64, MinInt64, MaxInt64; lia.
  - apply (Hheimdall (fun _ => Err (ErrMsg "unreachable")) 100 0 1 10000 [] []);
      unfold MaxInt64; lia.
Defined.

End Lookback.

(** ** The predicted height of the Bor predictor *)

Section PredictedHeight.
Import bor_hf.

(** C10. The height the Bor predictor prints is the sum of the latest
    height and the rounded block difference in [int64], brought up to
    zero when negative: it is never negative, it is zero whenever the
    latest height plus the block difference is below zero, and the
    conversion to [uint64] leaves it as it is. *)
Theorem predictedHeight_clamped (n blocksRounded : Z) :
  is_uint64 n -> is_int64 blocksRounded ->
  0 <= predictedHeight n blocksRounded <= MaxInt64 /\
  (n + blocksRounded < 0 -> predictedHeight n blocksRounded = 0) /\
  wrapU64 (predictedHeight n blocksRounded) = predictedHeight n blocksRounded /\
  (forall curTS target avgSecs l,
     report n curTS target avgSecs = Some l ->
     exists now avg sign delta blocks blocksFloat height,
       l = Report n now target avg sign delta blocks blocksFloat height /\
       0 <= height <= MaxInt64).
Proof.
  intros Hn Hb.
  assert (Hrange : 0 <= predictedHeight n blocksRounded <= MaxInt64).
  { unfold predictedHeight. cbv zeta.
    pose proof (wrap64_range (wrap64 n + blocksRounded)) as [Hlo Hhi].
    destruct (Z.ltb_spec (wrap64 (wrap64 n + blocksRounded)) 0);
      [unfold MaxInt64; lia | lia]. }
  assert (Hconv : forall b, wrapU64 (predictedHeight n b) = predictedHeight n b).
  { intros b. apply wrapU64_small. unfold predictedHeight. cbv zeta.
    pose proof (wrap64_range (wrap64 n + b)) as [Hlo Hhi].
    unfold is_uint64, MaxUint64, MaxInt64 in *.
    destruct (Z.ltb_spec (wrap64 (wrap64 n + b)) 0); lia. }
  split; [exact Hrange|]. split; [|split; [apply Hconv|]].
  - intros Hneg. unfold predictedHeight. cbv zeta.
    rewrite (wrap64_uint64 n Hn).
    unfold is_uint64, MaxUint64 in Hn. unfold is_int64, MinInt64, MaxInt64 in Hb.
    unfold MaxInt64, two64.
    destruct (Z.leb_spec n (2 ^ 63 - 1)) as [Hle|Hgt]; [|lia].
    rewrite wrap64_small by (unfold is_int64, MinInt64, MaxInt64; lia).
    destruct (Z.ltb_spec (n + blocksRounded) 0); [reflexivity | lia].
  - intros curTS target avgSecs l Hl. unfold report in Hl. cbv zeta in Hl.
    destruct (GoTime.int64_of_Round _) as [b|]; [|discriminate].
    injection Hl as <-. do 7 eexists. split; [reflexivity|].
    rewrite Hconv. unfold predictedHeight. cbv zeta.
    pose proof (wrap64_range (wrap64 n + b)) as [Hlo Hhi].
    destruct (Z.ltb_spec (wrap64 (wrap64 n + b)) 0); [unfold MaxInt64; lia | lia].
Qed.

Lemma predictedHeight_clamped_witness :
  0 <= predictedHeight 1000 (-43200) <= MaxInt64 /\
  (1000 + -43200 < 0 -> predictedHeight 1000 (-43200) = 0).
Proof.
  destruct (predictedHeight_clamped 1000 (-43200)) as (Hr & Hz & _).
  - unfold is_uint64, MaxUint64. lia.
  - unfold is_int64, MinInt64, MaxInt64. lia.
  - split; [exact Hr | exact Hz].
Defined.

End PredictedHeight.

(** ** A target time in the past *)

Section PastTarget.

Lemma Sub_negative (t u : Z) : t < u -> GoTime.Sub t u < 0.
Proof.
  intros Hlt. unfold GoTime.Sub, GoTime.minDuration, GoTime.maxDuration,
    MinInt64, MaxInt64. cbv zeta.
  destruct (Z.ltb_spec (t - u) (- 2 ^ 63)); [lia|].
  destruct (Z.ltb_spec (2 ^ 63 - 1) (t - u)); lia.
Qed.

Lemma Sub_exact (t u : Z) :
  GoTime.minDuration <= t - u <= GoTime.maxDuration -> GoTime.Sub t u = t - u.
Proof.
  intros [Hlo Hhi]. unfold GoTime.Sub. cbv zeta.
  destruct (Z.ltb_spec (t - u) GoTime.minDuration); [lia|].
  destruct (Z.ltb_spec GoTime.maxDuration (t - u)); [lia | reflexivity].
Qed.

(** C6 (as amended). In the Heimdall predictor a target time earlier
    than the latest block time ends the run normally with the message
    that the target is in the past, and no predicted height is printed.
    The Bor predictor has no such exit: whenever its report is defined
    it carries the sign ["-"] and a predicted height. *)
Theorem past_target (targetTime latestTime : Z) :
  targetTime < latestTime ->
  (forall latestHeight earliestHeight avgBlockTime,
     exists out,
       heimdall_hf.run (Ok (latestHeight, latestTime, earliestHeight))
         (Ok targetTime) avgBlockTime = Some (Returned out) /\
       out = [heimdall_hf.CurrentBlock latestHeight latestTime;
              heimdall_hf.InThePast targetTime] /\
       existsb heimdall_hf.is_prediction out = false) /\
  (forall n curTS avgSecs l,
     GoTime.Unix (wrap64 curTS) = latestTime ->
     bor_hf.report n curTS targetTime avgSecs = Some l ->
     exists delta blocks blocksFloat height,
       l = bor_hf.Report n latestTime targetTime avgSecs "-" delta blocks
             blocksFloat height /\
       delta < 0).
Proof.
  intros Hpast. pose proof (Sub_negative _ _ Hpast) as Hneg. split.
  - intros latestHeight earliestHeight avgBlockTime. eexists.
    split; [|split; reflexivity].
    unfold heimdall_hf.run.
    destruct (Z.ltb_spec (GoTime.Sub targetTime latestTime) 0); [reflexivity | lia].
  - intros n curTS avgSecs l Hnow Hl. unfold bor_hf.report in Hl.
    cbv zeta in Hl. rewrite Hnow in Hl.
    destruct (GoTime.int64_of_Round _) as [b|]; [|discriminate].
    injection Hl as <-.
    destruct (Z.ltb_spec (GoTime.Sub targetTime latestTime) 0); [|lia].
    do 4 eexists. split; [reflexivity | exact Hneg].
Qed.

Lemma past_target_witness :
  exists out,
    heimdall_hf.run (Ok (1000, GoTime.Unix 1735776000, 1))
      (Ok (GoTime.Unix 1735689600)) 2.0%float = Some (Returned out) /\
    out = [heimdall_hf.CurrentBlock 1000 (GoTime.Unix 1735776000);
           heimdall_hf.InThePast (GoTime.Unix 1735689600)] /\
    existsb heimdall_hf.is_prediction out = false.
Proof.
  assert (Hpast : GoTime.Unix 1735689600 < GoTime.Unix 1735776000)
    by (vm_compute; reflexivity).
  exact (proj1 (past_target _ _ Hpast) 1000 1 2.0%float).
Defined.

(** C6, counterexample: the Bor predictor, run against an endpoint at
    height 1000 whose blocks carry the time 2025-01-01T00:00:00Z, with
    the target 2024-12-31T00:00:00Z and two seconds per block, returns
    normally and prints a predicted height, 0. *)
Lemma bor_hf_predicts_for_past_target :
  GoTime.Unix 1735603200 < GoTime.Unix 1735689600 /\
  fst (bor_hf.main (H := Rpc.decode_verbatim) (H0 := bor_hf.decode_timestamp)
         bor_hf.steady "http://bor" (Ok (GoTime.Unix 1735603200)) 2.0%float
         Rpc.start) =
  Some (Returned
          [bor_hf.Report 1000 (GoTime.Unix 1735689600) (GoTime.Unix 1735603200)
             2.0%float "-" (-86400 * GoTime.Second) 43200 (-43200)%float 0]).
Proof.
  split; vm_compute; reflexivity.
Qed.

End PastTarget.

(** ** Floats: signs and exact values *)

Section FloatFacts.
Import GoTime.

Lemma binary_round_aux_sign (sx : bool) (mx ex : Z) (lx : location) :
  match binary_round_aux prec emax sx mx ex lx with
  | S754_zero s => s = sx
  | S754_finite s _ _ => s = sx
  | S754_infinity s => s = sx
  | S754_nan => True
  end.
Proof.
  unfold binary_round_aux.
  destruct (shr_fexp prec emax mx ex lx) as [mrs' e'].
  destruct (shr_fexp prec emax _ e' loc_Exact) as [mrs'' e''].
  destruct (shr_m mrs''); [reflexivity| |exact I].
  destruct (e'' <=? emax - prec); reflexivity.
Qed.

Lemma binary_round_not_negative (m : positive) (e : Z) :
  not_negative (binary_round prec emax false m e).
Proof.
  unfold binary_round.
  destruct (shl_align _ _ _) as [mz ez].
  pose proof (binary_round_aux_sign false (Z.pos mz) ez loc_Exact) as H.
  destruct (binary_round_aux _ _ _ _ _ _) as [s|s| |s m' e']; try exact I; subst; exact I.
Qed.

Lemma binary_normalize_not_negative (m e : Z) :
  0 <= m -> not_negative (binary_normalize prec emax m e false).
Proof.
  intros Hm. destruct m as [|p|p]; [exact I| |lia].
  apply binary_round_not_negative.
Qed.

Lemma of_uint63_not_negative (n : PrimInt63.int) : not_negative (Prim2SF (of_uint63 n)).
Proof.
  rewrite of_uint63_spec. apply binary_normalize_not_negative.
  pose proof (Uint63.to_Z_bounded n). lia.
Qed.

Lemma float64_of_int_not_negative (z : Z) : 0 <= z -> not_negative (Prim2SF (float64_of_int z)).
Proof.
  intros Hz. unfold float64_of_int.
  destruct (Z.eqb_spec z MinInt64) as [E|_]; [unfold MinInt64 in E; lia|].
  destruct (Z.ltb_spec z 0); [lia|]. apply of_uint63_not_negative.
Qed.


Lemma ltb_0_positive (y : float) : (0 <? y)%float = true -> positive_SF (Prim2SF y).
Proof.
  rewrite ltb_spec. change (Prim2SF 0) with (S754_zero false).
  destruct (Prim2SF y) as [s|s| |s m e]; try destruct s; simpl; try discriminate; intros _; exact I.
Qed.

Lemma SFdiv_not_negative (x y : spec_float) :
  not_negative x -> positive_SF y -> not_negative (SF64div x y).
Proof.
  intros Hx Hy. unfold SF64div, SFdiv.
  destruct x as [sx|sx| |sx mx ex], y as [sy|sy| |sy my ey]; try destruct sx; try destruct sy;
    simpl in *; try contradiction; try exact I.
  destruct (SFdiv_core_binary _ _ _ _ _ _) as [[mz ez] lz].
  pose proof (binary_round_aux_sign false mz ez lz) as H.
  destruct (binary_round_aux _ _ _ _ _ _) as [s|s| |s m' e']; try exact I; subst; exact I.
Qed.

Lemma SFadd_not_negative (x y : spec_float) :
  not_negative x -> not_negative y -> not_negative (SF64add x y).
Proof.
  intros Hx Hy. unfold SF64add, SFadd.
  destruct x as [sx|sx| |sx mx ex], y as [sy|sy| |sy my ey]; try destruct sx; try destruct sy;
    simpl in *; try contradiction; try exact I.
  apply binary_round_not_negative.
Qed.

Lemma Seconds_not_negative (d : Z) : 0 <= d -> not_negative (Prim2SF (Seconds d)).
Proof.
  intros Hd. unfold Seconds. cbv zeta. rewrite add_spec. apply SFadd_not_negative.
  - apply float64_of_int_not_negative. apply Z.quot_pos; [exact Hd | reflexivity].
  - rewrite div_spec. apply SFdiv_not_negative.
    + apply float64_of_int_not_negative. apply Z.rem_nonneg; [vm_compute; discriminate|exact Hd].
    + vm_compute. exact I.
Qed.
Lemma pow2_pos (k : Z) : 0 <= k -> 0 < 2 ^ k.
Proof. intros. apply Z.pow_pos_nonneg; lia. Qed.

(** The magnitude of a finite float as a rational is not negative, and
    its floor is the integer part the conversions compute. *)
Lemma magnitude_floor (m : positive) (e : Z) :
  let mag := if 0 <=? e then inject_Z (Z.pos m * 2 ^ e)
             else (inject_Z (Z.pos m) / inject_Z (2 ^ (- e)))%Q in
  (0 <= mag)%Q /\
  Qfloor mag = (if 0 <=? e then Z.pos m * 2 ^ e else Z.pos m / 2 ^ (- e)).
Proof.
  cbv zeta. destruct (Z.leb_spec 0 e) as [He|He].
  - split; [|apply Qfloor_Z].
    unfold Qle. simpl. pose proof (pow2_pos e He). nia.
  - pose proof (pow2_pos (- e) ltac:(lia)) as Hp. split.
    + apply Qle_shift_div_l; [unfold Qlt; simpl; lia|].
      unfold Qle. simpl. lia.
    + symmetry. apply Zdiv_Qdiv.
Qed.

Lemma magnitude_positive (m : positive) (e : Z) :
  let mag := if 0 <=? e then inject_Z (Z.pos m * 2 ^ e)
             else (inject_Z (Z.pos m) / inject_Z (2 ^ (- e)))%Q in
  (0 < mag)%Q.
Proof.
  cbv zeta. destruct (Z.leb_spec 0 e) as [He|He].
  - unfold Qlt. simpl. pose proof (pow2_pos e He). nia.
  - pose proof (pow2_pos (- e) ltac:(lia)) as Hp.
    apply Qlt_shift_div_l; [unfold Qlt; simpl; lia|].
    unfold Qlt. simpl. lia.
Qed.

Lemma trunc_SF_exact (f : spec_float) (z : Z) :
  trunc_SF f = Some z -> exists v, SF_Q f = Some v /\ z = Qtrunc v.
Proof.
  destruct f as [s|s| |s m e]; simpl; try discriminate.
  - intros [= <-]. exists 0%Q. split; reflexivity.
  - intros [= <-].
    destruct (magnitude_floor m e) as [Hnn Hfl]. cbv zeta in Hnn, Hfl.
    pose proof (magnitude_positive m e) as Hpos. cbv zeta in Hpos.
    set (mag := if 0 <=? e then inject_Z (Z.pos m * 2 ^ e)
                else (inject_Z (Z.pos m) / inject_Z (2 ^ (- e)))%Q) in *.
    eexists. split; [reflexivity|]. unfold Qtrunc.
    destruct s.
    + destruct (Qle_bool 0 (- mag)) eqn:E.
      * apply Qle_bool_iff in E. exfalso.
        apply (Qlt_irrefl 0). apply Qlt_le_trans with mag; [exact Hpos|].
        apply Qopp_le_compat in E. rewrite Qopp_involutive in E. exact E.
      * unfold Qceiling. rewrite (Qfloor_comp _ mag (Qopp_involutive mag)).
        rewrite Hfl. reflexivity.
    + apply Qle_bool_iff in Hnn. rewrite Hnn. symmetry. exact Hfl.
Qed.

Lemma trunc_SF_floor (f : spec_float) (z : Z) :
  not_negative f -> trunc_SF f = Some z ->
  0 <= z /\ exists v, SF_Q f = Some v /\ z = Qfloor v.
Proof.
  destruct f as [s|s| |s m e]; simpl; try discriminate.
  - intros _ [= <-]. split; [lia|]. exists 0%Q. split; reflexivity.
  - destruct s; [contradiction|]. intros _ [= <-].
    destruct (magnitude_floor m e) as [Hnn Hfl]. cbv zeta in Hnn, Hfl.
    split.
    + rewrite <- Hfl. change 0 with (Qfloor 0). apply Qfloor_resp_le. exact Hnn.
    + eexists. split; [reflexivity|]. symmetry. exact Hfl.
Qed.

Lemma Qfloor_half (M : Z) : Qfloor (inject_Z M + (1 # 2)) = M.
Proof.
  pose proof (Qfloor_le (inject_Z M + (1 # 2))) as Hle.
  pose proof (Qlt_floor (inject_Z M + (1 # 2))) as Hlt.
  set (F := Qfloor (inject_Z M + (1 # 2))) in *.
  unfold Qle, Qlt in *. simpl in *. lia.
Qed.

Lemma round_SF_exact (f : spec_float) (z : Z) :
  not_negative f -> round_SF f = Some z ->
  0 <= z /\ exists v, SF_Q f = Some v /\ z = Qround_away v.
Proof.
  destruct f as [s|s| |s m e]; simpl; try discriminate.
  - intros _ [= <-]. split; [lia|]. exists 0%Q. split; reflexivity.
  - destruct s; [contradiction|]. intros _ [= <-].
    destruct (magnitude_floor m e) as [Hnn _]. cbv zeta in Hnn.
    assert (Hz : (if 0 <=? e then Z.pos m * 2 ^ e
                  else (2 * Z.pos m + 2 ^ (- e)) / (2 * 2 ^ (- e))) =
                 Qround_away (if 0 <=? e then inject_Z (Z.pos m * 2 ^ e)
                              else (inject_Z (Z.pos m) / inject_Z (2 ^ (- e)))%Q)).
    { unfold Qround_away. apply Qle_bool_iff in Hnn. rewrite Hnn.
      destruct (Z.leb_spec 0 e) as [He|He].
      - symmetry. apply Qfloor_half.
      - pose proof (pow2_pos (- e) ltac:(lia)) as Hp.
        rewrite Zdiv_Qdiv. apply Qfloor_comp.
        rewrite !inject_Z_plus, !inject_Z_mult.
        assert (Hd : ~ (inject_Z (2 ^ (- e)) == 0)%Q)
          by (unfold Qeq; simpl; lia).
        field. exact Hd. }
    split.
    + destruct (Z.leb_spec 0 e) as [He|He].
      * pose proof (pow2_pos e He). nia.
      * pose proof (pow2_pos (- e) ltac:(lia)) as Hp.
        apply Z.div_pos; lia.
    + eexists. split; [reflexivity | exact Hz].
Qed.

End FloatFacts.

(** ** Predicting a future height *)

Section FutureHeight.
Import GoTime.

(** The quotient of a duration that is not negative by an average above
    zero is not negative. *)
Lemma quotient_not_negative (delta : Z) (avg : float) :
  0 <= delta -> (0 <? avg)%float = true ->
  not_negative (Prim2SF (PrimFloat.div (Seconds delta) avg)).
Proof.
  intros Hd Havg. rewrite div_spec. apply SFdiv_not_negative.
  - apply Seconds_not_negative. exact Hd.
  - apply ltb_0_positive. exact Havg.
Qed.

Lemma int64_of_float_inv (f : float) (z : Z) :
  int64_of_float f = Some z -> trunc_SF (Prim2SF f) = Some z /\ is_int64 z.
Proof.
  unfold int64_of_float, in_int64, is_int64.
  destruct (trunc_SF (Prim2SF f)) as [t|]; [|discriminate].
  destruct (Z.leb_spec MinInt64 t); destruct (Z.leb_spec t MaxInt64);
    simpl; try discriminate.
  intros [= <-]. split; [reflexivity | lia].
Qed.

Lemma int64_of_Round_inv (f : float) (z : Z) :
  int64_of_Round f = Some z -> round_SF (Prim2SF f) = Some z /\ is_int64 z.
Proof.
  unfold int64_of_Round, in_int64, is_int64.
  destruct (round_SF (Prim2SF f)) as [t|]; [|discriminate].
  destruct (Z.leb_spec MinInt64 t); destruct (Z.leb_spec t MaxInt64);
    simpl; try discriminate.
  intros [= <-]. split; [reflexivity | lia].
Qed.

(** The Heimdall predictor, for a target that is not in the past. *)
Lemma heimdall_hf_prediction (H T E X : Z) (avg : float) (b : Z) :
  T <= X -> X - T <= maxDuration -> (0 <? avg)%float = true ->
  int64_of_float (PrimFloat.div (Seconds (X - T)) avg) = Some b ->
  is_int64 (H + b) ->
  heimdall_hf.run (Ok (H, T, E)) (Ok X) avg =
    Some (Returned [heimdall_hf.CurrentBlock H T;
                    heimdall_hf.Prediction X avg (X - T) b (H + b)]) /\
  0 <= b /\
  exists v, exact (PrimFloat.div (Seconds (X - T)) avg) = Some v /\ b = Qfloor v.
Proof.
  intros HTX Hfit Havg Hb Hsum.
  assert (Hsub : Sub X T = X - T).
  { apply Sub_exact. unfold minDuration, MinInt64. lia. }
  split.
  - unfold heimdall_hf.run. rewrite Hsub.
    destruct (Z.ltb_spec (X - T) 0); [lia|].
    rewrite Hb. rewrite wrap64_small by exact Hsum. reflexivity.
  - apply int64_of_float_inv in Hb as [Htr _].
    apply trunc_SF_floor; [|exact Htr].
    apply quotient_not_negative; [lia | exact Havg].
Qed.

(** The Bor predictor, for a target that is not in the past. *)
Lemma bor_hf_prediction (n curTS X : Z) (avg : float) (b : Z) :
  is_uint64 n ->
  Unix (wrap64 curTS) <= X -> X - Unix (wrap64 curTS) <= maxDuration ->
  (0 <? avg)%float = true ->
  int64_of_Round (PrimFloat.div (Seconds (X - Unix (wrap64 curTS))) avg) = Some b ->
  n + b <= MaxInt64 ->
  bor_hf.report n curTS X avg =
    Some (bor_hf.Report n (Unix (wrap64 curTS)) X avg "+" (X - Unix (wrap64 curTS))
            b (PrimFloat.div (Seconds (X - Unix (wrap64 curTS))) avg) (n + b)) /\
  0 <= b /\
  exists v, exact (PrimFloat.div (Seconds (X - Unix (wrap64 curTS))) avg) = Some v /\
            b = Qround_away v.
Proof.
  intros Hn HTX Hfit Havg Hb Hsum.
  set (T := Unix (wrap64 curTS)) in *.
  assert (Hsub : Sub X T = X - T).
  { apply Sub_exact. unfold minDuration, MinInt64. lia. }
  pose proof Hb as Hb'. apply int64_of_Round_inv in Hb' as [Hrd _].
  destruct (round_SF_exact _ _ (quotient_not_negative (X - T) avg ltac:(lia) Havg) Hrd)
    as [Hpos Hex].
  split; [|split; [exact Hpos | exact Hex]].
  unfold bor_hf.report. cbv zeta. fold T. rewrite Hsub, Hb.
  destruct (Z.ltb_spec (X - T) 0); [lia|].
  unfold bor_hf.absInt64, bor_hf.predictedHeight. cbv zeta.
  destruct (Z.ltb_spec b 0); [lia|].
  unfold is_uint64 in Hn.
  assert (Hn64 : wrap64 n = n)
    by (apply wrap64_small; unfold is_int64, MinInt64, MaxInt64 in *; lia).
  rewrite Hn64.
  rewrite wrap64_small by (unfold is_int64, MinInt64, MaxInt64 in *; lia).
  destruct (Z.ltb_spec (n + b) 0); [lia|].
  rewrite wrapU64_small
    by (unfold is_uint64, MaxUint64, MaxInt64 in *; lia).
  reflexivity.
Qed.



End FutureHeight.

(** ** Estimating the time of a future block *)

Section Estimate.
Import GoTime estimator.




End Estimate.

(** ** Fetch failures in the average block time programs *)

Section HeimdallAverages.
Import heimdall_avg.

Lemma heimdall_loop_entries (getBlockTime : Z -> result Z) (H T E : Z) (lbs : list Z) :
  forall out,
    loop getBlockTime H T E lbs out = (out ++ map (entry getBlockTime H T E) lbs)%list.
Proof.
  induction lbs as [|lb rest IH]; intros out; simpl.
  - now rewrite app_nil_r.
  - unfold entry. cbv zeta.
    destruct (wrap64 (H - lb) <? E).
    + rewrite IH, <- app_assoc. reflexivity.
    + destruct (getBlockTime (wrap64 (H - lb))) as [t0|err];
        rewrite IH, <- app_assoc; reflexivity.
Qed.
End HeimdallAverages.

Section BorAverages.
Import Rpc bor_avg.
Context `{HS : Decode string} `{HB : Decode (option block)}.
Variables (net : Net) (rpcURL : string).

Lemma fetch_loop_answers (heights : list Z) :
  forall infos warnings w,
    fetch_loop net rpcURL heights infos warnings w =
      ((successes_into (fetch_answers net rpcURL heights w).1 infos,
        (warnings ++ failures (fetch_answers net rpcURL heights w).1)%list),
       (fetch_answers net rpcURL heights w).2).
Proof using Type.
  induction heights as [|h rest IH]; intros infos warnings w; simpl.
  - unfold ret. now rewrite app_nil_r.
  - unfold bind at 1.
    destruct (getBlockTimestamp net rpcURL h w) as [r w1].
    destruct (fetch_answers net rpcURL rest w1) as [rs w2] eqn:Hrs.
    destruct r as [ts|err]; rewrite IH, Hrs; simpl.
    + reflexivity.
    + rewrite <- app_assoc. reflexivity.
Qed.

Lemma fetch_answers_heights (heights : list Z) :
  forall w, map fst (fetch_answers net rpcURL heights w).1 = heights.
Proof using Type.
  induction heights as [|h rest IH]; intros w; simpl; [reflexivity|].
  destruct (getBlockTimestamp net rpcURL h w) as [r w1].
  specialize (IH w1).
  destruct (fetch_answers net rpcURL rest w1) as [rs w2]. simpl in *.
  now rewrite IH.
Qed.

Lemma successes_into_other (answers : list (Z * result Z)) (h : Z) :
  forall infos,
    ~ In h (map fst answers) ->
    successes_into answers infos !! h = infos !! h.
Proof using Type.
  induction answers as [|[h' r] rest IH]; intros infos Hnot; simpl in *; [reflexivity|].
  destruct r as [ts|err].
  - rewrite IH by tauto. apply lookup_insert_ne. tauto.
  - apply IH. tauto.
Qed.

Lemma successes_into_ok (answers : list (Z * result Z)) (h ts : Z) :
  forall infos,
    List.NoDup (map fst answers) -> In (h, Ok ts) answers ->
    successes_into answers infos !! h = Some {| height := h; timestamp := ts |}.
Proof using Type.
  induction answers as [|[h' r] rest IH]; intros infos Hnd Hin; simpl in *; [contradiction|].
  inversion Hnd as [|? ? Hnot Hnd']; subst.
  destruct Hin as [Heq|Hin].
  - injection Heq as -> ->.
    rewrite successes_into_other by exact Hnot. apply lookup_insert_eq.
  - destruct r as [ts'|err]; apply IH; assumption.
Qed.

Lemma successes_into_err (answers : list (Z * result Z)) (h : Z) (err : error) :
  forall infos,
    List.NoDup (map fst answers) -> In (h, Err err) answers ->
    successes_into answers infos !! h = infos !! h.
Proof using Type.
  induction answers as [|[h' r] rest IH]; intros infos Hnd Hin; simpl in *; [contradiction|].
  inversion Hnd as [|? ? Hnot Hnd']; subst.
  destruct Hin as [Heq|Hin].
  - injection Heq as -> ->. apply successes_into_other. exact Hnot.
  - assert (Hne : h' <> h).
    { intros ->. apply Hnot. apply (in_map fst) in Hin. exact Hin. }
    destruct r as [ts'|err'].
    + rewrite IH by assumption. apply lookup_insert_ne. exact Hne.
    + apply IH; assumption.
Qed.

Lemma failures_In (answers : list (Z * result Z)) (h : Z) (err : error) :
  In (h, Err err) answers <-> In (h, err) (failures answers).
Proof using Type.
  induction answers as [|[h' r] rest IH]; simpl; [tauto|].
  destruct r as [ts|err']; simpl; rewrite <- IH; split.
  - intros [Heq|Hin]; [discriminate | exact Hin].
  - tauto.
  - intros [Heq|Hin]; [left; congruence | tauto].
  - intros [Heq|Hin]; [left; congruence | tauto].
Qed.

Lemma resolve_heights_app (ts : list target) (n : Z) :
  forall acc, resolve_heights ts n acc = (acc ++ resolve_heights ts n [])%list.
Proof using Type.
  induction ts as [|t rest IH]; intros acc; simpl; [now rewrite app_nil_r|].
  destruct (resolve t n) as [h [|]]; [|apply IH].
  rewrite IH, (IH [h]), <- app_assoc. reflexivity.
Qed.

Lemma resolve_heights_In (ts : list target) (n h : Z) :
  In h (resolve_heights ts n []) <-> exists t, In t ts /\ resolve t n = (h, true).
Proof using Type.
  induction ts as [|t rest IH]; simpl.
  - split; [contradiction | intros (t & [] & _)].
  - destruct (resolve t n) as [h' [|]] eqn:Hr.
    + rewrite resolve_heights_app. simpl. rewrite IH. split.
      * intros [<-|(t' & Hin & Ht')]; [exists t; tauto | exists t'; tauto].
      * intros (t' & [<-|Hin] & Ht').
        -- left. congruence.
        -- right. exists t'. tauto.
    + rewrite IH. split.
      * intros (t' & Hin & Ht'). exists t'. tauto.
      * intros (t' & [<-|Hin] & Ht'); [congruence | exists t'; tauto].
Qed.

Lemma targets_heights_NoDup (n : Z) :
  is_uint64 n -> List.NoDup (resolve_heights targets n []).
Proof using Type.
  intros Hn. unfold targets. cbn [resolve_heights].
  rewrite !resolve_relative
    by (try exact Hn; unfold is_int64, MinInt64, MaxInt64; lia).
  unfold is_uint64 in Hn.
  destruct (Z.ltb_spec (n + 0) 0); [lia|]. cbn [app].
  repeat match goal with
  | |- context [if ?a <? ?b then _ else _] => destruct (Z.ltb_spec a b); cbn [app]
  end;
  repeat (constructor; [simpl; lia|]); constructor.
Qed.

Lemma report_loop_app (ts : list target) (n nTS : Z) (infos : gmap Z info) :
  forall out,
    report_loop ts n nTS infos out = (out ++ report_loop ts n nTS infos [])%list.
Proof using Type.
  induction ts as [|t rest IH]; intros out; simpl; [now rewrite app_nil_r|].
  destruct (resolve t n) as [h ok].
  destruct (negb ok || (h =? n)); [apply IH|].
  destruct (infos !! h) as [src|]; [|apply IH].
  rewrite IH. symmetry. rewrite IH, <- app_assoc. reflexivity.
Qed.

Lemma report_loop_In (ts : list target) (n nTS : Z) (infos : gmap Z info) (l : line) :
  In l (report_loop ts n nTS infos []) <->
  exists t h src,
    In t ts /\ resolve t n = (h, true) /\ h <> n /\ infos !! h = Some src /\
    l = reference n nTS h src.
Proof using Type.
  induction ts as [|t rest IH]; simpl.
  - split; [contradiction | intros (t & h & src & [] & _)].
  - destruct (resolve t n) as [h ok] eqn:Hr.
    assert (Hskip :
      negb ok || (h =? n) = true \/ infos !! h = None ->
      (In l (report_loop rest n nTS infos []) <->
       exists t0 h0 src,
         (t = t0 \/ In t0 rest) /\ resolve t0 n = (h0, true) /\ h0 <> n /\
         infos !! h0 = Some src /\ l = reference n nTS h0 src)).
    { intros Hs. rewrite IH. split.
      - intros (t0 & h0 & src & Hin & Hrest). exists t0, h0, src. tauto.
      - intros (t0 & h0 & src & [<-|Hin] & Hr0 & Hne & Hl & Hline).
        + rewrite Hr in Hr0. injection Hr0 as -> ->. exfalso.
          destruct Hs as [Hs|Hs]; [|congruence].
          simpl in Hs. apply Z.eqb_eq in Hs. contradiction.
        + exists t0, h0, src. tauto. }
    destruct (negb ok || (h =? n)) eqn:Hb; [apply Hskip; tauto|].
    destruct (infos !! h) as [src|] eqn:Hl; [|apply Hskip; tauto].
    clear Hskip. apply orb_false_iff in Hb as [Hok Hne].
    apply negb_false_iff in Hok. subst ok. apply Z.eqb_neq in Hne.
    rewrite report_loop_app. simpl. rewrite IH. split.
    + intros [<-|(t0 & h0 & src0 & Hin & Hrest)].
      * exists t, h, src. repeat split; tauto.
      * exists t0, h0, src0. tauto.
    + intros (t0 & h0 & src0 & [<-|Hin] & Hr0 & Hne0 & Hl0 & ->).
      * left. rewrite Hr in Hr0. injection Hr0 as <-.
        assert (src0 = src) as -> by congruence. reflexivity.
      * right. exists t0, h0, src0. tauto.
Qed.

Lemma getLatestBlockNumber_range (w w1 : World) (n : Z) :
  getLatestBlockNumber net rpcURL w = (Ok n, w1) -> is_uint64 n.
Proof using Type.
  unfold getLatestBlockNumber, bind. 
  destruct (rpcCall net rpcURL "eth_blockNumber" [] w) as [[hex|err] w'];
    unfold ret; [|discriminate].
  intros [= Hh _]. unfold Hex.hexToUint64 in Hh.
  destruct (String.eqb _ _); [discriminate|].
  destruct (Hex.SetString _ _) as [bi|]; [|discriminate].
  destruct (_ || _); [discriminate|]. injection Hh as <-.
  unfold Hex.Uint64, wrapU64, is_uint64, MaxUint64, two64.
  pose proof (Z.mod_pos_bound (Z.abs bi) (2 ^ 64) ltac:(lia)). lia.
Qed.

(** The Bor program: when the latest height [n] was obtained and the
    timestamp of block [n] was fetched, the run returns normally
    whatever the other fetches did. *)
Lemma bor_avg_failures_not_fatal (w w1 : World) (n nTS : Z) :
  getLatestBlockNumber net rpcURL w = (Ok n, w1) ->
  let fetched := fetch_answers net rpcURL (resolve_heights targets n []) w1 in
  In (n, Ok nTS) fetched.1 ->
  exists out,
    main net rpcURL w =
      ((Returned (CurrentBlock n nTS :: out), failures fetched.1), fetched.2) /\
    (forall h ts,
       h <> n -> In (h, Ok ts) fetched.1 ->
       In (reference n nTS h {| height := h; timestamp := ts |}) out) /\
    (forall h err,
       In (h, Err err) fetched.1 ->
       In (h, err) (failures fetched.1) /\
       existsb (is_reference_of h) out = false).
Proof using Type.
  intros Hlatest fetched Hn.
  pose proof (getLatestBlockNumber_range _ _ _ Hlatest) as Hrange.
  pose proof (targets_heights_NoDup n Hrange) as Hnd.
  rewrite <- (fetch_answers_heights (resolve_heights targets n []) w1) in Hnd.
  fold fetched in Hnd.
  set (infos := successes_into fetched.1 ∅).
  assert (HnTS : infos !! n = Some {| height := n; timestamp := nTS |})
    by (apply successes_into_ok; assumption).
  exists (report_loop targets n nTS infos []). split; [|split].
  - unfold main, bind. rewrite Hlatest.
    rewrite fetch_loop_answers. fold fetched. fold infos.
    unfold ensure_latest. rewrite HnTS. unfold ret. cbv beta iota zeta.
    rewrite HnTS. cbn [timestamp].
    rewrite (report_loop_app targets n nTS infos [_]). reflexivity.
  - intros h ts Hne Hin. apply report_loop_In.
    assert (Hh : In h (resolve_heights targets n [])).
    { rewrite <- (fetch_answers_heights (resolve_heights targets n []) w1).
      fold fetched. apply (in_map fst) in Hin. exact Hin. }
    apply resolve_heights_In in Hh as (t & Ht & Hr).
    exists t, h, {| height := h; timestamp := ts |}.
    repeat split; try assumption.
    apply successes_into_ok; assumption.
  - intros h err Hin. split; [apply failures_In; exact Hin|].
    assert (Hnone : infos !! h = None).
    { unfold infos. rewrite (successes_into_err _ _ err) by assumption.
      apply lookup_empty. }
    destruct (existsb (is_reference_of h) _) eqn:Hex; [|reflexivity].
    apply existsb_exists in Hex as (l & Hl & His).
    apply report_loop_In in Hl as (t & h' & src & _ & _ & _ & Hsrc & ->).
    simpl in His. apply Z.eqb_eq in His. subst h'. congruence.
Qed.

End BorAverages.

Section HeimdallFailures.
Import heimdall_avg.

(** The Heimdall program prints one line per lookback, each decided by
    the answer to its own fetch. *)
Lemma heimdall_avg_failures_not_fatal (getBlockTime : Z -> result Z) (H T E : Z) :
  exists out,
    main (Ok (H, T, E)) getBlockTime = Returned (CurrentBlock H T E :: out) /\
    out = map (entry getBlockTime H T E) lookbacks /\
    (forall lb err,
       In lb lookbacks -> E <= wrap64 (H - lb) ->
       getBlockTime (wrap64 (H - lb)) = Err err ->
       In (FetchError lb (wrap64 (H - lb)) err) out) /\
    (forall lb t0,
       In lb lookbacks -> E <= wrap64 (H - lb) ->
       getBlockTime (wrap64 (H - lb)) = Ok t0 ->
       In (Average lb (wrap64 (H - lb)) H (GoTime.Sub T t0)
             (PrimFloat.div (GoTime.Seconds (GoTime.Sub T t0))
                (GoTime.float64_of_int lb))) out).
Proof.
  exists (map (entry getBlockTime H T E) lookbacks).
  split; [|split; [reflexivity|split]].
  - unfold main. rewrite heimdall_loop_entries. reflexivity.
  - intros lb err Hlb Hge Hfetch. apply in_map_iff. exists lb.
    split; [|exact Hlb]. unfold entry. cbv zeta.
    destruct (Z.ltb_spec (wrap64 (H - lb)) E); [lia|].
    rewrite Hfetch. reflexivity.
  - intros lb t0 Hlb Hge Hfetch. apply in_map_iff. exists lb.
    split; [|exact Hlb]. unfold entry. cbv zeta.
    destruct (Z.ltb_spec (wrap64 (H - lb)) E); [lia|].
    rewrite Hfetch. reflexivity.
Qed.

End HeimdallFailures.

(** C8. In both average block time programs a failed fetch of a
    reference block does not stop the run.  The Heimdall program
    returns normally with one line per lookback: a failed fetch gives
    an error line for that lookback and every fetch that succeeded
    gives its average.  The Bor program, once it has the latest height
    and the timestamp of the latest block, returns normally: every
    failed fetch is a warning and leaves no entry, and every reference
    height whose fetch succeeded has its entry. *)
Theorem secondary_fetch_failure_not_fatal :
  (forall getBlockTime H T E,
     exists out,
       heimdall_avg.main (Ok (H, T, E)) getBlockTime =
         Returned (heimdall_avg.CurrentBlock H T E :: out) /\
       out = map (heimdall_avg.entry getBlockTime H T E) heimdall_avg.lookbacks /\
       (forall lb err,
          In lb heimdall_avg.lookbacks -> E <= wrap64 (H - lb) ->
          getBlockTime (wrap64 (H - lb)) = Err err ->
          In (heimdall_avg.FetchError lb (wrap64 (H - lb)) err) out) /\
       (forall lb t0,
          In lb heimdall_avg.lookbacks -> E <= wrap64 (H - lb) ->
          getBlockTime (wrap64 (H - lb)) = Ok t0 ->
          In (heimdall_avg.Average lb (wrap64 (H - lb)) H (GoTime.Sub T t0)
                (PrimFloat.div (GoTime.Seconds (GoTime.Sub T t0))
                   (GoTime.float64_of_int lb))) out)) /\
  (forall (HS : Rpc.Decode string) (HB : Rpc.Decode (option Rpc.block))
          (net : Rpc.Net) (rpcURL : string) (w w1 : Rpc.World) (n nTS : Z),
     Rpc.getLatestBlockNumber net rpcURL w = (Ok n, w1) ->
     let fetched :=
       bor_avg.fetch_answers net rpcURL
         (bor_avg.resolve_heights bor_avg.targets n []) w1 in
     In (n, Ok nTS) fetched.1 ->
     exists out,
       bor_avg.main net rpcURL w =
         ((Returned (bor_avg.CurrentBlock n nTS :: out),
           bor_avg.failures fetched.1), fetched.2) /\
       (forall h ts,
          h <> n -> In (h, Ok ts) fetched.1 ->
          In (bor_avg.reference n nTS h
                {| bor_avg.height := h; bor_avg.timestamp := ts |}) out) /\
       (forall h err,
          In (h, Err err) fetched.1 ->
          In (h, err) (bor_avg.failures fetched.1) /\
          existsb (bor_avg.is_reference_of h) out = false)).
Proof.
  split.
  - intros getBlockTime H T E. apply heimdall_avg_failures_not_fatal.
  - intros HS HB net rpcURL w w1 n nTS Hlatest fetched Hn.
    exact (bor_avg_failures_not_fatal net rpcURL w w1 n nTS Hlatest Hn).
Qed.

Lemma secondary_fetch_failure_not_fatal_witness :
  exists out,
    bor_avg.main (H := Rpc.decode_verbatim) (H0 := bor_hf.decode_timestamp)
      bor_avg.flaky "http://bor" Rpc.start =
      ((Returned (bor_avg.CurrentBlock 1000000 1735689600 :: out),
        [(960000, ErrRpcExhausted "eth_getBlockByNumber" 3
                    (Some (ErrMsg "connection refused")))]),
       snd (bor_avg.fetch_answers (H := bor_hf.decode_timestamp)
              bor_avg.flaky "http://bor" [1000000; 960000; 720000; 440000]
              (snd (Rpc.getLatestBlockNumber (H := Rpc.decode_verbatim)
                      bor_avg.flaky "http://bor" Rpc.start)))) /\
    In (bor_avg.reference 1000000 1735689600 720000
          {| bor_avg.height := 720000; bor_avg.timestamp := 1735689600 |}) out /\
    existsb (bor_avg.is_reference_of 960000) out = false.
Proof.
  destruct (proj2 secondary_fetch_failure_not_fatal
              Rpc.decode_verbatim bor_hf.decode_timestamp bor_avg.flaky
              "http://bor" Rpc.start
              (snd (Rpc.getLatestBlockNumber (H := Rpc.decode_verbatim)
                      bor_avg.flaky "http://bor" Rpc.start))
              1000000 1735689600)
    as (out & Hmain & Hok & Herr).
  - reflexivity.
  - vm_compute. left. reflexivity.
  - exists out. split; [|split].
    + rewrite Hmain. reflexivity.
    + apply (Hok 720000 1735689600); [lia|].
      vm_compute. right. right. left. reflexivity.
    + apply (Herr 960000 (ErrRpcExhausted "eth_getBlockByNumber" 3
                            (Some (ErrMsg "connection refused")))).
      vm_compute. right. left. reflexivity.
Defined.

(** ** Printed numbers *)

(** ** Strings *)

Section Strings.
Import Text.

Lemma string_length_app (s t : string) :
  String.length (String.append s t) = (String.length s + String.length t)%nat.
Proof.
  induction s as [|c s IH]; [reflexivity|].
  change (S (String.length (String.append s t)) = S (String.length s + String.length t)).
  now rewrite IH.
Qed.

Lemma string_append_assoc (s t u : string) :
  String.append (String.append s t) u = String.append s (String.append t u).
Proof.
  induction s as [|c s IH]; [reflexivity|].
  change (String c (String.append (String.append s t) u)
          = String c (String.append s (String.append t u))).
  now rewrite IH.
Qed.

Lemma string_append_empty_r (s : string) : String.append s "" = s.
Proof.
  induction s as [|c s IH]; [reflexivity|].
  change (String c (String.append s "") = String c s). now rewrite IH.
Qed.

Lemma string_take_drop (n : nat) (s : string) :
  String.append (take n s) (Hex.drop n s) = s.
Proof.
  revert s. induction n as [|n IH]; intros s; [reflexivity|].
  destruct s as [|c r]; [reflexivity|].
  change (String c (String.append (take n r) (Hex.drop n r)) = String c r).
  now rewrite IH.
Qed.

Lemma string_length_take (n : nat) (s : string) :
  (n <= String.length s)%nat -> String.length (take n s) = n.
Proof.
  revert s. induction n as [|n IH]; intros s Hn; [reflexivity|].
  destruct s as [|c r]; simpl in *; [lia|]. rewrite IH by lia. reflexivity.
Qed.

Lemma string_length_drop (n : nat) (s : string) :
  String.length (Hex.drop n s) = (String.length s - n)%nat.
Proof.
  revert s. induction n as [|n IH]; intros s; simpl.
  - lia.
  - destruct s as [|c r]; simpl; [reflexivity | apply IH].
Qed.

Lemma string_drop_drop (a b : nat) (s : string) :
  Hex.drop b (Hex.drop a s) = Hex.drop (a + b) s.
Proof.
  revert s. induction a as [|a IH]; intros s; [reflexivity|].
  destruct s as [|c r]; simpl.
  - destruct b; reflexivity.
  - apply IH.
Qed.

Lemma string_drop_all (s : string) : Hex.drop (String.length s) s = "".
Proof. induction s as [|c r IH]; [reflexivity | exact IH]. Qed.

Lemma slice_in_range (s : string) (lo hi : nat) :
  (lo <= hi)%nat -> (hi <= String.length s)%nat ->
  slice s lo hi = Some (take (hi - lo) (Hex.drop lo s)).
Proof.
  intros H1 H2. unfold slice.
  destruct (Nat.leb_spec lo hi); [|lia].
  destruct (Nat.leb_spec hi (String.length s)); [reflexivity | lia].
Qed.

End Strings.

Section Commas.
Import Text.

(** The loop writes one group of three per round and stops at the end
    of the digits. *)
Lemma comma_loop_groups (s : string) (n : nat) (q : nat) :
  String.length s = n ->
  forall rounds i b,
    (i + 3 * q = n)%nat -> (q <= rounds)%nat ->
    exists gs,
      comma_loop rounds s n i b = Some (join_groups b gs) /\
      Forall (fun g => String.length g = 3%nat) gs /\
      concat_groups gs = Hex.drop i s.
Proof.
  intros Hlen. induction q as [|q IH]; intros rounds i b Hi Hq.
  - exists []. assert (i = n) by lia. subst i.
    split; [|split; [constructor|]].
    + destruct rounds; [reflexivity|]. simpl.
      destruct (Nat.ltb_spec n n); [lia | reflexivity].
    + simpl. rewrite <- Hlen. symmetry. apply string_drop_all.
  - destruct rounds as [|k]; [lia|]. simpl.
    destruct (Nat.ltb_spec i n); [|lia].
    rewrite slice_in_range by lia.
    replace (i + 3 - i)%nat with 3%nat by lia.
    set (g := take 3 (Hex.drop i s)).
    destruct (IH k (i + 3)%nat (String.append b (String "," g)) ltac:(lia) ltac:(lia))
      as (gs & Hloop & Hall & Hcat).
    exists (g :: gs). split; [exact Hloop|]. split.
    + constructor; [|exact Hall]. unfold g. apply string_length_take.
      rewrite string_length_drop. lia.
    + simpl. rewrite Hcat. unfold g. rewrite <- string_drop_drop. apply string_take_drop.
Qed.

Lemma fmt_dec_loop_nonempty (k : nat) (u : Z) (buf : string) :
  (1 <= String.length (fmt_dec_loop (S k) u buf))%nat.
Proof.
  revert u buf. induction k as [|k IH]; intros u buf.
  - simpl. destruct (u <? 10); simpl; lia.
  - change (fmt_dec_loop (S (S k)) u buf) with
      (if u <? 10 then String (dec_digit u) buf
       else fmt_dec_loop (S k) (u / 10)
              (String (dec_digit (u - u / 10 * 10)) buf)).
    destruct (u <? 10); [simpl; lia | apply IH].
Qed.

Lemma withCommas_of_digits (u : Z) :
  exists g0 gs,
    withCommasUint64 u = Some (join_groups g0 gs) /\
    (1 <= String.length g0 <= 3)%nat /\
    Forall (fun g => String.length g = 3%nat) gs /\
    String.append g0 (concat_groups gs) = fmt_u u.
Proof.
  unfold withCommasUint64. cbv zeta.
  pose proof (fmt_dec_loop_nonempty 19 u "") as Hne. fold (fmt_u u) in Hne.
  set (s := fmt_u u) in *. set (n := String.length s) in *.
  destruct (Nat.leb_spec n 3) as [Hsmall|Hbig].
  - exists s, []. split; [reflexivity|]. split; [lia|]. split; [constructor|].
    apply string_append_empty_r.
  - set (pre := if ((n mod 3) =? 0)%nat then 3%nat else (n mod 3)%nat).
    pose proof (Nat.div_mod_eq n 3) as Hdm.
    pose proof (Nat.mod_upper_bound n 3 ltac:(lia)) as Hmod.
    assert (Hpre : (1 <= pre <= 3)%nat /\ (pre + 3 * ((n - pre) / 3) = n)%nat).
    { unfold pre. destruct (Nat.eqb_spec (n mod 3) 0) as [E|E].
      - split; [lia|]. rewrite E in Hdm.
        replace (n - 3)%nat with ((n / 3 - 1) * 3)%nat by lia.
        rewrite Nat.div_mul by lia. lia.
      - split; [lia|].
        replace (n - n mod 3)%nat with ((n / 3) * 3)%nat by lia.
        rewrite Nat.div_mul by lia. lia. }
    destruct Hpre as [Hpre Hq].
    rewrite slice_in_range by lia. rewrite Nat.sub_0_r. simpl Hex.drop.
    destruct (comma_loop_groups s n ((n - pre) / 3) eq_refl n pre (take pre s) Hq)
      as (gs & Hloop & Hall & Hcat).
    { apply Nat.Div0.div_le_upper_bound. lia. }
    exists (take pre s), gs. split; [exact Hloop|]. split.
    + rewrite string_length_take by (fold n; lia). exact Hpre.
    + split; [exact Hall|]. rewrite Hcat. apply string_take_drop.
Qed.

End Commas.

Section Decimal.
Import Text.

Lemma dec_digit_byte (d : Z) : 0 <= d < 10 -> Hex.byte (dec_digit d) = 48 + d.
Proof.
  intros Hd.
  assert (E : d = 0 \/ d = 1 \/ d = 2 \/ d = 3 \/ d = 4 \/ d = 5 \/ d = 6 \/
              d = 7 \/ d = 8 \/ d = 9) by lia.
  repeat (destruct E as [E|E]; [subst d; reflexivity|]).
  subst d; reflexivity.
Qed.

Lemma dec_digit_is_dec (d : Z) : 0 <= d < 10 -> is_dec_digit (dec_digit d) = true.
Proof.
  intros Hd. unfold is_dec_digit. rewrite dec_digit_byte by exact Hd.
  apply andb_true_iff. split; apply Z.leb_le; lia.
Qed.

Lemma dec_value_from_app (s1 s2 : string) :
  forall acc,
    dec_value_from acc (String.append s1 s2) =
    dec_value_from (dec_value_from acc s1) s2.
Proof.
  induction s1 as [|ch r IH]; intros acc; [reflexivity|].
  change (dec_value_from (acc * 10 + (Hex.byte ch - 48)) (String.append r s2) =
          dec_value_from (dec_value_from (acc * 10 + (Hex.byte ch - 48)) r) s2).
  apply IH.
Qed.

Lemma all_dec_app (s1 s2 : string) :
  all_dec (String.append s1 s2) = all_dec s1 && all_dec s2.
Proof.
  induction s1 as [|ch r IH]; [reflexivity|].
  change (is_dec_digit ch && all_dec (String.append r s2) =
          is_dec_digit ch && all_dec r && all_dec s2).
  rewrite IH. apply andb_assoc.
Qed.

(** The formatting loop writes, in front of the buffer, the decimal
    digits of its argument. *)
Lemma fmt_dec_loop_rendering (k : nat) :
  forall u buf,
    0 <= u < 10 ^ Z.of_nat (S k) ->
    exists ds,
      fmt_dec_loop (S k) u buf = String.append ds buf /\
      ds <> "" /\ all_dec ds = true /\ dec_value ds = u.
Proof.
  induction k as [|k IH]; intros u buf Hu.
  - change (10 ^ Z.of_nat 1) with 10 in Hu.
    exists (String (dec_digit u) ""). simpl.
    destruct (Z.ltb_spec u 10) as [_|?]; [|lia].
    split; [reflexivity|]. unfold dec_value. simpl.
    rewrite dec_digit_is_dec, dec_digit_byte by lia.
    repeat split; [discriminate | lia].
  - change (fmt_dec_loop (S (S k)) u buf) with
      (if u <? 10 then String (dec_digit u) buf
       else fmt_dec_loop (S k) (u / 10)
              (String (dec_digit (u - u / 10 * 10)) buf)).
    destruct (Z.ltb_spec u 10) as [Hlt|Hge].
    + exists (String (dec_digit u) "").
      split; [reflexivity|]. unfold dec_value. simpl.
      rewrite dec_digit_is_dec, dec_digit_byte by lia.
      repeat split; [discriminate | lia].
    + assert (Hpow : 10 ^ Z.of_nat (S (S k)) = 10 * 10 ^ Z.of_nat (S k)).
      { rewrite (Nat2Z.inj_succ (S k)). rewrite Z.pow_succ_r by lia. reflexivity. }
      pose proof (Z.div_mod u 10 ltac:(lia)) as Hdm.
      pose proof (Z.mod_pos_bound u 10 ltac:(lia)) as Hm.
      assert (Hr : 0 <= u - u / 10 * 10 < 10) by lia.
      destruct (IH (u / 10) (String (dec_digit (u - u / 10 * 10)) buf))
        as (ds & Hds & Hne & Hall & Hval).
      { split; [apply Z.div_pos; lia|]. apply Z.div_lt_upper_bound; lia. }
      exists (String.append ds (String (dec_digit (u - u / 10 * 10)) "")).
      split; [rewrite Hds; symmetry; apply append_snoc|].
      unfold dec_value in *. repeat split.
      * destruct ds; discriminate.
      * rewrite all_dec_app, Hall. simpl.
        rewrite dec_digit_is_dec by exact Hr. reflexivity.
      * rewrite dec_value_from_app, Hval. simpl.
        rewrite dec_digit_byte by exact Hr. lia.
Qed.

Lemma fmt_u_rendering (u : Z) :
  is_uint64 u ->
  fmt_u u <> "" /\ all_dec (fmt_u u) = true /\ dec_value (fmt_u u) = u.
Proof.
  intros [Hlo Hhi]. unfold fmt_u.
  destruct (fmt_dec_loop_rendering 19 u "") as (ds & Hds & Hr).
  { unfold MaxUint64 in Hhi. change (10 ^ Z.of_nat 20) with 100000000000000000000. lia. }
  rewrite Hds, string_append_empty_r. exact Hr.
Qed.

End Decimal.

Section PrintedNumbers.
Import Text.

(** X1. [withCommasUint64] (and [withCommas], the same function in
    the Bor average program) never panics on a [uint64]: it returns the
    decimal digits of the number, unchanged and in order, cut into a
    first group of one to three digits and groups of exactly three
    digits, each of these after a comma. *)
Theorem withCommasUint64_groups (u : Z) :
  is_uint64 u ->
  exists g0 gs,
    withCommasUint64 u = Some (join_groups g0 gs) /\
    (1 <= String.length g0 <= 3)%nat /\
    Forall (fun g => String.length g = 3%nat) gs /\
    all_dec (String.append g0 (concat_groups gs)) = true /\
    dec_value (String.append g0 (concat_groups gs)) = u.
Proof.
  intros Hu.
  destruct (withCommas_of_digits u) as (g0 & gs & Hw & Hg0 & Hgs & Hcat).
  destruct (fmt_u_rendering u Hu) as (_ & Hall & Hval).
  exists g0, gs. rewrite Hcat. repeat split; tauto || lia.
Qed.

Lemma withCommasUint64_groups_witness :
  exists g0 gs,
    withCommasUint64 12345678 = Some (join_groups g0 gs) /\
    (1 <= String.length g0 <= 3)%nat /\
    Forall (fun g => String.length g = 3%nat) gs /\
    all_dec (String.append g0 (concat_groups gs)) = true /\
    dec_value (String.append g0 (concat_groups gs)) = 12345678.
Proof.
  apply (withCommasUint64_groups 12345678).
  unfold is_uint64, MaxUint64. lia.
Defined.

(** X2. [withCommasInt64] prints the grouped magnitude of an [int64],
    with a minus sign in front exactly when the number is negative; the
    lowest [int64], whose negation wraps, is printed right as well. *)
Theorem withCommasInt64_magnitude (v : Z) :
  is_int64 v ->
  exists s,
    withCommasUint64 (Z.abs v) = Some s /\
    withCommasInt64 v = Some (if v <? 0 then String "-" s else s).
Proof.
  intros Hv. pose proof Hv as [Hlo Hhi]. unfold MinInt64, MaxInt64 in *.
  destruct (withCommas_of_digits (Z.abs v)) as (g0 & gs & Hw & _).
  exists (join_groups g0 gs). split; [exact Hw|].
  unfold withCommasInt64. destruct (Z.ltb_spec v 0) as [Hneg|Hpos].
  - assert (Hmag : wrapU64 (wrap64 (- v)) = Z.abs v).
    { destruct (Z.eq_dec v (- 2 ^ 63)) as [->|Hne]; [reflexivity|].
      rewrite wrap64_small by (unfold is_int64, MinInt64, MaxInt64; lia).
      rewrite wrapU64_small by (unfold is_uint64, MaxUint64; lia). lia. }
    rewrite Hmag, Hw. reflexivity.
  - rewrite wrapU64_small by (unfold is_uint64, MaxUint64; lia).
    rewrite Z.abs_eq in Hw by lia. exact Hw.
Qed.

Lemma withCommasInt64_magnitude_witness :
  exists s,
    withCommasUint64 (Z.abs MinInt64) = Some s /\
    withCommasInt64 MinInt64 = Some (if MinInt64 <? 0 then String "-" s else s).
Proof.
  apply (withCommasInt64_magnitude MinInt64).
  unfold is_int64, MinInt64, MaxInt64. lia.
Defined.

Lemma dhms_decompose (t : Z) :
  0 <= t ->
  exists d h m s,
    dhms t = (d, h, m, s) /\
    d * 86400 + h * 3600 + m * 60 + s = t /\
    0 <= d /\ 0 <= h < 24 /\ 0 <= m < 60 /\ 0 <= s < 60.
Proof.
  intros Ht. unfold dhms. cbv zeta. do 4 eexists. split; [reflexivity|].
  assert (R1 : Z.rem t 86400 = t mod 86400) by (apply Z.rem_mod_nonneg; lia).
  pose proof (Z.mod_pos_bound t 86400 ltac:(lia)) as B1.
  assert (R2 : Z.rem (t mod 86400) 3600 = (t mod 86400) mod 3600)
    by (apply Z.rem_mod_nonneg; lia).
  pose proof (Z.mod_pos_bound (t mod 86400) 3600 ltac:(lia)) as B2.
  assert (R3 : Z.rem ((t mod 86400) mod 3600) 60 = ((t mod 86400) mod 3600) mod 60)
    by (apply Z.rem_mod_nonneg; lia).
  rewrite R1, R2, R3.
  rewrite !Z.quot_div_nonneg by lia.
  Z.div_mod_to_equations. lia.
Qed.

End PrintedNumbers.

(** ** Elapsed times *)

Section Elapsed.
Import Text GoTime.

Lemma elapsed_parts_dhms (d : Z) :
  0 <= d <= MaxInt64 -> elapsed_parts d = dhms (Z.quot d Second).
Proof.
  intros Hd. unfold MaxInt64 in Hd. unfold elapsed_parts, dhms. cbv zeta.
  change (24 * Hour) with 86400000000000.
  change Hour with 3600000000000. change Minute with 60000000000.
  change Second with 1000000000.
  assert (Hq : forall a b, 0 <= a -> 0 < b -> Z.quot a b = a / b)
    by (intros; apply Z.quot_div_nonneg; lia).
  assert (Hr : forall a b, 0 <= a -> 0 < b -> Z.rem a b = a mod b)
    by (intros; apply Z.rem_mod_nonneg; lia).
  rewrite (Hq d 86400000000000) by lia.
  set (days := d / 86400000000000).
  assert (Hdays : 0 <= days <= 106751) by (unfold days; Z.div_mod_to_equations; lia).
  rewrite (wrap64_small (days * 24)) by (unfold is_int64, MinInt64, MaxInt64; lia).
  rewrite (wrap64_small (days * 24 * 3600000000000))
    by (unfold is_int64, MinInt64, MaxInt64; lia).
  assert (Hd1 : d - days * 24 * 3600000000000 = d mod 86400000000000)
    by (unfold days; Z.div_mod_to_equations; lia).
  rewrite Hd1.
  pose proof (Z.mod_pos_bound d 86400000000000 ltac:(lia)) as B1.
  set (d1 := d mod 86400000000000) in *.
  rewrite (wrap64_small d1) by (unfold is_int64, MinInt64, MaxInt64; lia).
  rewrite (Hq d1 3600000000000) by lia.
  set (hours := d1 / 3600000000000).
  assert (Hhours : 0 <= hours < 24) by (unfold hours; Z.div_mod_to_equations; lia).
  rewrite (wrap64_small (hours * 3600000000000))
    by (unfold is_int64, MinInt64, MaxInt64; lia).
  assert (Hd2 : d1 - hours * 3600000000000 = d1 mod 3600000000000)
    by (unfold hours; Z.div_mod_to_equations; lia).
  rewrite Hd2.
  pose proof (Z.mod_pos_bound d1 3600000000000 ltac:(lia)) as B2.
  set (d2 := d1 mod 3600000000000) in *.
  rewrite (wrap64_small d2) by (unfold is_int64, MinInt64, MaxInt64; lia).
  rewrite (Hq d2 60000000000) by lia.
  set (mins := d2 / 60000000000).
  assert (Hmins : 0 <= mins < 60) by (unfold mins; Z.div_mod_to_equations; lia).
  rewrite (wrap64_small (mins * 60000000000))
    by (unfold is_int64, MinInt64, MaxInt64; lia).
  assert (Hd3 : d2 - mins * 60000000000 = d2 mod 60000000000)
    by (unfold mins; Z.div_mod_to_equations; lia).
  rewrite Hd3.
  pose proof (Z.mod_pos_bound d2 60000000000 ltac:(lia)) as B3.
  set (d3 := d2 mod 60000000000) in *.
  rewrite (wrap64_small d3) by (unfold is_int64, MinInt64, MaxInt64; lia).
  rewrite (Hq d3 1000000000) by lia.
  rewrite (Hq d 1000000000) by lia.
  set (t := d / 1000000000).
  assert (Ht : 0 <= t) by (unfold t; Z.div_mod_to_equations; lia).
  rewrite (Hq t 86400) by lia. rewrite (Hr t 86400) by lia.
  pose proof (Z.mod_pos_bound t 86400 ltac:(lia)) as C1.
  rewrite (Hq (t mod 86400) 3600) by lia. rewrite (Hr (t mod 86400) 3600) by lia.
  pose proof (Z.mod_pos_bound (t mod 86400) 3600 ltac:(lia)) as C2.
  rewrite (Hq ((t mod 86400) mod 3600) 60) by lia.
  rewrite (Hr ((t mod 86400) mod 3600) 60) by lia.
  assert (E1 : days = t / 86400).
  { unfold days, t. rewrite Z.div_div by lia. reflexivity. }
  assert (E2 : d1 / 1000000000 = t mod 86400).
  { unfold d1, t. Z.div_mod_to_equations. lia. }
  assert (E3 : hours = (t mod 86400) / 3600).
  { rewrite <- E2. unfold hours. rewrite Z.div_div by lia. reflexivity. }
  assert (E4 : d2 / 1000000000 = (t mod 86400) mod 3600).
  { rewrite <- E2. unfold d2. Z.div_mod_to_equations. lia. }
  assert (E5 : mins = ((t mod 86400) mod 3600) / 60).
  { rewrite <- E4. unfold mins. rewrite Z.div_div by lia. reflexivity. }
  assert (E6 : d3 / 1000000000 = ((t mod 86400) mod 3600) mod 60).
  { rewrite <- E4. unfold d3. Z.div_mod_to_equations. lia. }
  rewrite E1, E3, E5, E6. reflexivity.
Qed.

(** X3. [elapsedDHMS] of the Bor average program prints the size of
    a number of seconds as days, hours below 24, minutes below 60 and
    seconds below 60 that add up to it; the sign is dropped.  The lowest
    [int64], whose negation wraps, is left out. *)
Theorem elapsedDHMS_parts (t : Z) :
  is_int64 t -> t <> MinInt64 ->
  exists d h m s,
    elapsedDHMS t = render d h m s /\
    d * 86400 + h * 3600 + m * 60 + s = Z.abs t /\
    0 <= d /\ 0 <= h < 24 /\ 0 <= m < 60 /\ 0 <= s < 60.
Proof.
  intros [Hlo Hhi] Hne. unfold MinInt64, MaxInt64 in *.
  destruct (dhms_decompose (Z.abs t) ltac:(lia)) as (d & h & m & s & Hp & Hsum).
  exists d, h, m, s. split; [|exact Hsum].
  unfold elapsedDHMS. cbv zeta.
  assert (Habs : (if t <? 0 then wrap64 (- t) else t) = Z.abs t).
  { destruct (Z.ltb_spec t 0).
    - rewrite wrap64_small by (unfold is_int64, MinInt64, MaxInt64; lia). lia.
    - lia. }
  rewrite Habs, Hp. reflexivity.
Qed.

Lemma elapsedDHMS_parts_witness :
  exists d h m s,
    elapsedDHMS (-90061) = render d h m s /\
    d * 86400 + h * 3600 + m * 60 + s = Z.abs (-90061) /\
    0 <= d /\ 0 <= h < 24 /\ 0 <= m < 60 /\ 0 <= s < 60.
Proof.
  apply (elapsedDHMS_parts (-90061)).
  - unfold is_int64, MinInt64, MaxInt64. lia.
  - unfold MinInt64. lia.
Defined.



End Elapsed.

Section DeltaTime.
Import Text bor_hf_print.



End DeltaTime.

Section AbsoluteValue.
Import bor_hf.

(** X6. [absInt64] is the absolute value on every [int64] but the
    lowest, which it returns unchanged: it is the one input on which the
    result is negative. *)
Theorem absInt64_spec (v : Z) :
  is_int64 v ->
  absInt64 v = (if v =? MinInt64 then MinInt64 else Z.abs v) /\
  (0 <= absInt64 v <-> v <> MinInt64).
Proof.
  unfold is_int64, MinInt64, MaxInt64, absInt64. intros Hv.
  destruct (Z.eqb_spec v (- 2 ^ 63)) as [->|Hne].
  - split; [reflexivity|]. vm_compute. split; [intros H; elim H; reflexivity|].
    intros H. elim H. reflexivity.
  - destruct (Z.ltb_spec v 0) as [Hneg|Hpos].
    + rewrite wrap64_small by (unfold is_int64, MinInt64, MaxInt64; lia).
      split; [lia|]. split; [intros _; exact Hne | lia].
    + split; [lia|]. split; [intros _; exact Hne | lia].
Qed.

Lemma absInt64_spec_witness : absInt64 MinInt64 = MinInt64.
Proof.
  apply (proj1 (absInt64_spec MinInt64
                  ltac:(unfold is_int64, MinInt64, MaxInt64; lia))).
Defined.

End AbsoluteValue.

(** ** Decimal parsing *)

Section ParseDecimal.
Import Text Strconv.

Lemma is_dec_digit_range (ch : ascii) :
  is_dec_digit ch = true -> 0 <= Hex.byte ch - 48 <= 9.
Proof.
  unfold is_dec_digit. intros H. apply andb_true_iff in H as [H1 H2].
  apply Z.leb_le in H1, H2. lia.
Qed.

Lemma dec_value_from_ge (s : string) :
  forall acc, all_dec s = true -> 0 <= acc -> acc <= dec_value_from acc s.
Proof.
  induction s as [|ch r IH]; intros acc Hs Hacc; simpl in *; [lia|].
  apply andb_true_iff in Hs as [Hc Hr].
  pose proof (is_dec_digit_range ch Hc).
  specialize (IH (acc * 10 + (Hex.byte ch - 48)) Hr ltac:(lia)). lia.
Qed.

(** On decimal digits [ParseUint] computes the value, or reports that
    it is out of range. *)
Lemma ParseUint_loop_digits (s : string) :
  forall n,
    all_dec s = true -> 0 <= n <= MaxUint64 ->
    ParseUint_loop s n =
      if dec_value_from n s <=? MaxUint64 then (dec_value_from n s, None)
      else (MaxUint64, Some ErrRange).
Proof.
  induction s as [|ch r IH]; intros n Hs Hn.
  - simpl. destruct (Z.leb_spec n MaxUint64); [reflexivity | lia].
  - simpl in Hs. apply andb_true_iff in Hs as [Hc Hr].
    pose proof (is_dec_digit_range ch Hc) as Hd.
    unfold is_dec_digit in Hc.
    cbn [ParseUint_loop dec_value_from]. cbv zeta. rewrite Hc.
    destruct (Z.geb_spec (Hex.byte ch - 48) 10); [lia|].
    unfold cutoff, MaxUint64 in *.
    change (2 ^ 64 - 1) with 18446744073709551615 in *.
    change (18446744073709551615 / 10 + 1) with 1844674407370955162.
    pose proof (dec_value_from_ge r (n * 10 + (Hex.byte ch - 48)) Hr ltac:(lia)) as Hge.
    destruct (Z.geb_spec n 1844674407370955162) as [Hcut|Hcut].
    + destruct (Z.leb_spec (dec_value_from (n * 10 + (Hex.byte ch - 48)) r)
                  18446744073709551615); [lia | reflexivity].
    + unfold wrapU64, two64. change (2 ^ 64) with 18446744073709551616.
      rewrite (Z.mod_small (n * 10)) by lia.
      destruct (Z.le_gt_cases (n * 10 + (Hex.byte ch - 48)) 18446744073709551615)
        as [Hfit|Hover].
      * rewrite Z.mod_small by lia.
        destruct (Z.ltb_spec (n * 10 + (Hex.byte ch - 48)) (n * 10)); [lia|].
        destruct (Z.gtb_spec (n * 10 + (Hex.byte ch - 48)) 18446744073709551615); [lia|].
        simpl. apply IH; [exact Hr | lia].
      * replace ((n * 10 + (Hex.byte ch - 48)) mod 18446744073709551616)
          with (n * 10 + (Hex.byte ch - 48) - 18446744073709551616)
          by (apply Z.mod_unique with 1; lia).
        destruct (Z.ltb_spec (n * 10 + (Hex.byte ch - 48) - 18446744073709551616)
                    (n * 10)); [|lia].
        simpl.
        destruct (Z.leb_spec (dec_value_from (n * 10 + (Hex.byte ch - 48)) r)
                    18446744073709551615); [lia | reflexivity].
Qed.

(** On anything else it reports an error, with the largest value when
    the error is the range. *)
Lemma ParseUint_loop_not_digits (s : string) :
  forall n,
    all_dec s = false ->
    (exists v, ParseUint_loop s n = (v, Some ErrSyntax)) \/
    ParseUint_loop s n = (MaxUint64, Some ErrRange).
Proof.
  induction s as [|ch r IH]; intros n Hs; [discriminate|].
  cbn [ParseUint_loop]. cbv zeta. simpl in Hs. unfold is_dec_digit in Hs.
  destruct ((48 <=? Hex.byte ch) && (Hex.byte ch <=? 57)) eqn:Hc.
  - simpl in Hs.
    destruct (Hex.byte ch - 48 >=? 10); [eauto|].
    destruct (n >=? cutoff); [eauto|].
    destruct (_ || _); [eauto|]. apply IH. exact Hs.
  - destruct ((97 <=? lower (Hex.byte ch)) && (lower (Hex.byte ch) <=? 122)) eqn:Hl;
      [|eauto].
    apply andb_true_iff in Hl as [Hl _]. apply Z.leb_le in Hl.
    destruct (Z.geb_spec (lower (Hex.byte ch) - 97 + 10) 10); [eauto | lia].
Qed.

Lemma dec_value_nonneg (s : string) : all_dec s = true -> 0 <= dec_value s.
Proof. intros H. apply (dec_value_from_ge s 0 H). lia. Qed.

(** What [ParseInt] does with the digits once the sign is off. *)
Lemma ParseInt_tail (neg : bool) (s1 : string) :
  let tail :=
    match ParseUint s1 with
    | (_, Some ErrSyntax) => Err (error_of ErrSyntax)
    | (un, _) =>
        if negb neg && (un >=? 2 ^ 63) then Err (error_of ErrRange)
        else if neg && (un >? 2 ^ 63) then Err (error_of ErrRange)
        else Ok (if neg then wrap64 (- wrap64 un) else wrap64 un)
    end in
  (s1 = "" \/ all_dec s1 = false -> exists e, tail = Err e) /\
  (s1 <> "" -> all_dec s1 = true ->
   tail =
     if (if neg then 2 ^ 63 <? dec_value s1 else 2 ^ 63 <=? dec_value s1)
     then Err (error_of ErrRange)
     else Ok (if neg then - dec_value s1 else dec_value s1)).
Proof.
  cbv zeta. split.
  - intros [->|Hbad]; [simpl; eauto|].
    destruct s1 as [|c r]; [discriminate|]. unfold ParseUint.
    destruct (ParseUint_loop_not_digits (String c r) 0 Hbad) as [[v ->]| ->];
      [eauto|].
    destruct neg; simpl; eauto.
  - intros Hne Hall. destruct s1 as [|c r]; [congruence|]. unfold ParseUint.
    rewrite ParseUint_loop_digits
      by (try exact Hall; unfold MaxUint64; lia).
    fold (dec_value (String c r)).
    pose proof (dec_value_nonneg _ Hall) as Hnn.
    set (dv := dec_value (String c r)) in *.
    unfold MaxUint64. change (2 ^ 64 - 1) with 18446744073709551615.
    change (2 ^ 63) with 9223372036854775808.
    destruct (Z.leb_spec dv 18446744073709551615) as [Hfit|Hover].
    + destruct neg; simpl.
      * destruct (Z.gtb_spec dv 9223372036854775808);
          destruct (Z.ltb_spec 9223372036854775808 dv); try lia; [reflexivity|].
        f_equal. destruct (Z.eq_dec dv 9223372036854775808) as [->|Hd];
          [reflexivity|].
        rewrite (wrap64_small dv) by (unfold is_int64, MinInt64, MaxInt64; lia).
        apply wrap64_small. unfold is_int64, MinInt64, MaxInt64. lia.
      * destruct (Z.geb_spec dv 9223372036854775808);
          destruct (Z.leb_spec 9223372036854775808 dv); try lia; [reflexivity|].
        f_equal. apply wrap64_small. unfold is_int64, MinInt64, MaxInt64. lia.
    + destruct neg; simpl.
      * destruct (Z.ltb_spec 9223372036854775808 dv); [reflexivity | lia].
      * destruct (Z.leb_spec 9223372036854775808 dv); [reflexivity | lia].
Qed.


Lemma not_sign_of_digit (c : ascii) :
  is_dec_digit c = true -> Ascii.eqb c "+" = false /\ Ascii.eqb c "-" = false.
Proof.
  intros H. split.
  - destruct (Ascii.eqb_spec c "+") as [->|_]; [discriminate H | reflexivity].
  - destruct (Ascii.eqb_spec c "-") as [->|_]; [discriminate H | reflexivity].
Qed.

(** [ParseInt] in base 10 and 64 bits succeeds exactly on the signed
    decimal numbers within [int64], and returns their value. *)
Lemma ParseInt_ok_iff (s : string) (v : Z) :
  ParseInt s = Ok v <-> signed_decimal s v /\ is_int64 v.
Proof.
  destruct s as [|c0 rest].
  { split; [discriminate|]. intros [(ds & Hne & _ & [[[E|E] _]|[E _]]) _];
      [congruence | discriminate E | discriminate E]. }
  unfold ParseInt. cbv zeta.
  set (s1 := if Ascii.eqb c0 "+" || Ascii.eqb c0 "-" then rest else String c0 rest).
  set (neg := Ascii.eqb c0 "-").
  destruct (ParseInt_tail neg s1) as [Hbad Hgood]. cbv zeta in Hbad, Hgood.
  assert (Hshape :
    String c0 rest = (if neg then String "-" s1
                      else if Ascii.eqb c0 "+" then String "+" s1 else s1)).
  { unfold neg, s1. destruct (Ascii.eqb_spec c0 "-") as [->|Hm]; [reflexivity|].
    destruct (Ascii.eqb_spec c0 "+") as [->|Hp]; reflexivity. }
  unfold is_int64, MinInt64, MaxInt64.
  change (2 ^ 63) with 9223372036854775808 in *.
  split.
  - intros Hok.
    destruct (String.eqb_spec s1 "") as [E|Hne].
    { destruct (Hbad (or_introl E)) as [e He]. rewrite He in Hok. discriminate Hok. }
    destruct (all_dec s1) eqn:Hall.
    2:{ destruct (Hbad (or_intror eq_refl)) as [e He]. rewrite He in Hok.
        discriminate Hok. }
    rewrite (Hgood Hne eq_refl) in Hok.
    pose proof (dec_value_nonneg _ Hall) as Hnn.
    split.
    + exists s1. split; [exact Hne|]. split; [exact Hall|]. rewrite Hshape.
      destruct neg.
      * right. split; [reflexivity|].
        destruct (9223372036854775808 <? dec_value s1); congruence.
      * left. split; [destruct (Ascii.eqb c0 "+"); tauto|].
        destruct (9223372036854775808 <=? dec_value s1); congruence.
    + destruct neg.
      * destruct (Z.ltb_spec 9223372036854775808 (dec_value s1)); [discriminate|].
        injection Hok as <-. lia.
      * destruct (Z.leb_spec 9223372036854775808 (dec_value s1)); [discriminate|].
        injection Hok as <-. lia.
  - intros [(ds & Hne & Hall & Hcases) Hv].
    pose proof (dec_value_nonneg _ Hall) as Hnn.
    assert (Hfirst : exists c r, ds = String c r /\ is_dec_digit c = true).
    { destruct ds as [|c r]; [congruence|]. exists c, r. split; [reflexivity|].
      simpl in Hall. apply andb_true_iff in Hall. tauto. }
    destruct Hfirst as (c & r & Hds & Hc).
    destruct (not_sign_of_digit c Hc) as [Hnp Hnm].
    assert (Hs1 : neg = (if Ascii.eqb c0 "-" then true else false) /\ s1 = ds /\
                  (neg = true -> v = - dec_value ds) /\
                  (neg = false -> v = dec_value ds)).
    { unfold neg, s1. destruct Hcases as [[[E|E] Hval]|[E Hval]].
      - rewrite Hds in E. injection E as -> ->. rewrite Hnp, Hnm. simpl.
        rewrite Hds. repeat split; congruence.
      - injection E as -> ->. simpl. repeat split; congruence.
      - injection E as -> ->. simpl. repeat split; congruence. }
    destruct Hs1 as (_ & -> & Hvn & Hvp).
    rewrite (Hgood Hne Hall). destruct neg.
    + rewrite (Hvn eq_refl) in *.
      destruct (Z.ltb_spec 9223372036854775808 (dec_value ds)); [lia | reflexivity].
    + rewrite (Hvp eq_refl) in *.
      destruct (Z.leb_spec 9223372036854775808 (dec_value ds)); [lia | reflexivity].
Qed.

(** The height that [getBlockTime] writes into the URL with [%d] is
    one [ParseInt] reads back. *)
Lemma ParseInt_fmt_d (v : Z) : is_int64 v -> ParseInt (fmt_d v) = Ok v.
Proof.
  intros Hv. apply ParseInt_ok_iff. split; [|exact Hv].
  pose proof Hv as [Hlo Hhi]. unfold MinInt64, MaxInt64 in *.
  unfold fmt_d. destruct (Z.ltb_spec v 0) as [Hneg|Hpos].
  - rewrite wrapU64_small by (unfold is_uint64, MaxUint64; lia).
    destruct (fmt_u_rendering (- v)) as (Hne & Hall & Hval);
      [unfold is_uint64, MaxUint64; lia|].
    exists (fmt_u (- v)). repeat split; try assumption.
    right. split; [reflexivity | lia].
  - destruct (fmt_u_rendering v) as (Hne & Hall & Hval);
      [unfold is_uint64, MaxUint64; lia|].
    exists (fmt_u v). repeat split; try assumption.
    left. split; [left; reflexivity | lia].
Qed.


End ParseDecimal.

(** ** The REST helpers of the Heimdall programs *)

Section RestHelpers.
Import Rest.

(** [getJSON] succeeds exactly on a well-formed URL answered with a
    status from 200 to 299 and a body that decodes. *)
Lemma getJSON_success {T} `{HD : DecodeJSON T} (net : Net) (url : string) (v : T) :
  getJSON net url = Ok v <->
  url_error net url = None /\
  exists status body,
    get net url = Response status body /\ 200 <= status < 300 /\
    decode_json body = Ok v.
Proof.
  unfold getJSON. destruct (url_error net url) as [e|].
  { split; [discriminate | intros [? _]; discriminate]. }
  destruct (get net url) as [e|status body].
  { split; [discriminate | intros (_ & s & b & E & _); discriminate]. }
  assert (Hin : (status <? 200) || (status >=? 300) = false <-> 200 <= status < 300).
  { destruct (Z.ltb_spec status 200); destruct (Z.geb_spec status 300);
      simpl; split; intros; (discriminate || lia || reflexivity). }
  destruct ((status <? 200) || (status >=? 300)).
  - split; [discriminate|].
    intros (_ & s & b & E & Hs & _). injection E as <- <-.
    apply Hin in Hs. discriminate Hs.
  - split.
    + intros H. split; [reflexivity|]. exists status, body.
      split; [reflexivity|]. split; [apply Hin; reflexivity | exact H].
    + intros (_ & s & b & E & _ & Hd). injection E as <- <-. exact Hd.
Qed.

Lemma getJSON_status {T} `{HD : DecodeJSON T} (net : Net) (url : string)
    (status : Z) (body : string) :
  url_error net url = None -> get net url = Response status body ->
  status < 200 \/ 300 <= status ->
  getJSON (T := T) net url = Err (ErrHTTPStatus status url).
Proof.
  intros Hu Hg Hs. unfold getJSON. rewrite Hu, Hg.
  destruct (Z.ltb_spec status 200); destruct (Z.geb_spec status 300);
    simpl; try reflexivity; lia.
Qed.

(** X7. Every outcome of [getJSON].  It returns a value exactly when
    the URL is well formed and answered with a status from 200 to 299
    and a body that decodes to that value.  It fails with the error of
    the URL, or of the transport, or with the HTTP status error for a
    status outside 200 to 299, or with the error of the decoder, and in
    no other way: a body is not decoded under a bad status. *)
Theorem getJSON_outcome {T} `{HD : DecodeJSON T} (net : Net) (url : string) :
  (forall v : T,
     getJSON net url = Ok v <->
     url_error net url = None /\
     exists status body,
       get net url = Response status body /\ 200 <= status < 300 /\
       decode_json body = Ok v) /\
  (forall e,
     getJSON (T := T) net url = Err e <->
     url_error net url = Some e \/
     (url_error net url = None /\
      (get net url = Failure e \/
       exists status body,
         get net url = Response status body /\
         (((status < 200 \/ 300 <= status) /\ e = ErrHTTPStatus status url) \/
          (200 <= status < 300 /\ decode_json (T := T) body = Err e))))).
Proof.
  split; [intros v; apply getJSON_success|].
  intros e. unfold getJSON. destruct (url_error net url) as [e0|].
  { split.
    - intros [= <-]. left. reflexivity.
    - intros [[= <-]|[Hn _]]; [reflexivity | discriminate]. }
  destruct (get net url) as [e0|status body].
  { split.
    - intros [= <-]. right. split; [reflexivity|]. left. reflexivity.
    - intros [?|[_ [[= <-]|(s & b & Hr & _)]]];
        [discriminate | reflexivity | discriminate]. }
  destruct (Z.ltb_spec status 200) as [Hlo|Hlo];
    destruct (Z.geb_spec status 300) as [Hhi|Hhi]; simpl.
  - lia.
  - split.
    + intros [= <-]. right. split; [reflexivity|]. right.
      exists status, body. split; [reflexivity|]. left. split; [lia | reflexivity].
    + intros [?|[_ [?|(s & b & [= <- <-] & [[_ ->]|[Hs _]])]]];
        [discriminate | discriminate | reflexivity | lia].
  - split.
    + intros [= <-]. right. split; [reflexivity|]. right.
      exists status, body. split; [reflexivity|]. left. split; [lia | reflexivity].
    + intros [?|[_ [?|(s & b & [= <- <-] & [[_ ->]|[Hs _]])]]];
        [discriminate | discriminate | reflexivity | lia].
  - split.
    + intros Hd. right. split; [reflexivity|]. right.
      exists status, body. split; [reflexivity|]. right. split; [lia | exact Hd].
    + intros [?|[_ [?|(s & b & [= <- <-] & [[Hs _]|[_ Hd]])]]];
        [discriminate | discriminate | lia | exact Hd].
Qed.

(** X8. What a successful [getLatest] has read: the status URL was
    answered with a status from 200 to 299 and a body that decodes, the
    two heights are the signed decimal numbers of the response and are
    within [int64], and the time is the parsed latest block time. *)
Theorem getLatest_ok `{HD : DecodeJSON statusResp}
    (Parse : string -> string -> result Z) (net : Net) (base : string)
    (h t e : Z) :
  getLatest Parse net base = Ok (h, t, e) ->
  exists status body sr,
    get net (String.append base "/status") = Response status body /\
    200 <= status < 300 /\ decode_json body = Ok sr /\
    Strconv.signed_decimal (LatestBlockHeight sr) h /\ is_int64 h /\
    Strconv.signed_decimal (EarliestBlockH sr) e /\ is_int64 e /\
    Parse RFC3339Nano (LatestBlockTime sr) = Ok t.
Proof.
  unfold getLatest. cbv zeta.
  destruct (getJSON net (String.append base "/status")) as [sr|err] eqn:Hj;
    [|discriminate].
  apply getJSON_success in Hj as (_ & status & body & Hget & Hst & Hdec).
  destruct (Strconv.ParseInt (LatestBlockHeight sr)) as [h'|] eqn:Hh; [|discriminate].
  destruct (Strconv.ParseInt (EarliestBlockH sr)) as [e'|] eqn:He; [|discriminate].
  destruct (Parse RFC3339Nano (LatestBlockTime sr)) as [t'|] eqn:Ht; [|discriminate].
  intros [= -> -> ->].
  apply ParseInt_ok_iff in Hh as [Hh1 Hh2]. apply ParseInt_ok_iff in He as [He1 He2].
  exists status, body, sr. tauto.
Qed.

End RestHelpers.

Lemma getLatest_ok_witness :
  exists status body sr,
    Rest.get RestSamples.no_blocks (String.append "http://heimdall" "/status") =
      Rest.Response status body /\
    200 <= status < 300 /\
    Rest.decode_json (DecodeJSON := RestSamples.decode_status) body = Ok sr /\
    Strconv.signed_decimal (Rest.LatestBlockHeight sr) 2000000 /\
    is_int64 2000000 /\
    Strconv.signed_decimal (Rest.EarliestBlockH sr) 1 /\ is_int64 1 /\
    RestSamples.parse_epoch Rest.RFC3339Nano (Rest.LatestBlockTime sr) = Ok 0.
Proof.
  apply (getLatest_ok (HD := RestSamples.decode_status) RestSamples.parse_epoch
           RestSamples.no_blocks "http://heimdall" 2000000 0 1).
  reflexivity.
Defined.

Section RestPrograms.
Import Rest.

(** X9. [getBlockTime] returns a time exactly when the block URL of
    the height is well formed and answered with a status from 200 to 299
    and a body that decodes to a block with a time that is not empty and
    that parses; the time returned is the parsed one. *)
Theorem getBlockTime_ok_iff `{HB : DecodeJSON blockResp}
    (Parse : string -> string -> result Z) (net : Net) (base : string)
    (height t : Z) :
  getBlockTime Parse net base height = Ok t <->
  exists status body br,
    url_error net
      (String.append base (String.append "/block?height=" (Text.fmt_d height)))
      = None /\
    get net
      (String.append base (String.append "/block?height=" (Text.fmt_d height)))
      = Response status body /\
    200 <= status < 300 /\ decode_json body = Ok br /\
    Time br <> "" /\ Parse RFC3339Nano (Time br) = Ok t.
Proof.
  unfold getBlockTime. cbv zeta.
  set (u := String.append base (String.append "/block?height=" (Text.fmt_d height))).
  destruct (getJSON (T := blockResp) net u) as [br|err] eqn:Hj.
  - apply getJSON_success in Hj as (Hu & status & body & Hget & Hst & Hdec).
    destruct (String.eqb_spec (Time br) "") as [Hempty|Hsome].
    + split; [discriminate|].
      intros (s & b & br' & _ & Hget' & _ & Hdec' & Hne & _).
      rewrite Hget in Hget'. injection Hget' as <- <-.
      rewrite Hdec in Hdec'. injection Hdec' as <-. contradiction.
    + destruct (Parse RFC3339Nano (Time br)) as [t'|err] eqn:Hp.
      * split.
        -- intros [= <-]. exists status, body, br. tauto.
        -- intros (s & b & br' & _ & Hget' & _ & Hdec' & _ & Hp').
           rewrite Hget in Hget'. injection Hget' as <- <-.
           rewrite Hdec in Hdec'. injection Hdec' as <-. congruence.
      * split; [discriminate|].
        intros (s & b & br' & _ & Hget' & _ & Hdec' & _ & Hp').
        rewrite Hget in Hget'. injection Hget' as <- <-.
        rewrite Hdec in Hdec'. injection Hdec' as <-. congruence.
  - split; [discriminate|].
    intros (s & b & br & Hu & Hget & Hst & Hdec & _).
    assert (Hok : getJSON (T := blockResp) net u = Ok br).
    { apply getJSON_success. split; [exact Hu|]. exists s, b. tauto. }
    congruence.
Qed.

(** X10. When the status request is answered with a status outside
    200 to 299, both Heimdall programs panic before they print anything,
    with the error of [getJSON] for the status URL wrapped as
    "get latest". *)
Theorem heimdall_programs_status_failure
    `{HS : DecodeJSON statusResp} `{HB : DecodeJSON blockResp}
    (Parse : string -> string -> result Z) (net : Net) (base : string)
    (status : Z) (body : string) :
  url_error net (String.append base "/status") = None ->
  get net (String.append base "/status") = Response status body ->
  status < 200 \/ 300 <= status ->
  average_program Parse net base =
    Panicked []
      (ErrWrap "get latest" (ErrHTTPStatus status (String.append base "/status"))) /\
  hf_program Parse net base =
    Some (Panicked []
            (ErrWrap "get latest"
               (ErrHTTPStatus status (String.append base "/status")))).
Proof.
  intros Hurl Hget Hstatus.
  assert (Hlatest : getLatest Parse net base =
                    Err (ErrHTTPStatus status (String.append base "/status"))).
  { unfold getLatest. cbv zeta.
    rewrite (getJSON_status net _ status body Hurl Hget Hstatus). reflexivity. }
  unfold average_program, hf_program, heimdall_avg.main, heimdall_hf.main,
    heimdall_hf.run.
  rewrite Hlatest. split; reflexivity.
Qed.

End RestPrograms.

Lemma heimdall_programs_status_failure_witness :
  Rest.average_program (H := RestSamples.decode_status)
    (H0 := RestSamples.decode_block) RestSamples.parse_epoch
    RestSamples.unavailable "http://heimdall" =
    Panicked []
      (ErrWrap "get latest" (ErrHTTPStatus 503 "http://heimdall/status")).
Proof.
  apply (proj1 (heimdall_programs_status_failure
                  (HS := RestSamples.decode_status)
                  (HB := RestSamples.decode_block) RestSamples.parse_epoch
                  RestSamples.unavailable "http://heimdall" 503
                  "Service Unavailable" eq_refl eq_refl
                  ltac:(right; lia))).
Defined.

Section AverageProgram.
Import Rest heimdall_avg.

(** X11. A block request answered with a status outside 200 to 299
    does not stop the Heimdall average program: the run returns normally
    with the header and one line for each of the four lookbacks, and the
    line of that lookback is the error line with the HTTP status and the
    URL of the block. *)
Theorem average_program_http_error
    `{HS : DecodeJSON statusResp} `{HB : DecodeJSON blockResp}
    (Parse : string -> string -> result Z) (net : Net) (base : string)
    (H T E lb status : Z) (body : string) :
  getLatest Parse net base = Ok (H, T, E) ->
  In lb lookbacks -> E <= wrap64 (H - lb) ->
  let url :=
    String.append base
      (String.append "/block?height=" (Text.fmt_d (wrap64 (H - lb)))) in
  url_error net url = None ->
  get net url = Response status body ->
  status < 200 \/ 300 <= status ->
  exists out,
    average_program Parse net base = Returned (CurrentBlock H T E :: out) /\
    In (FetchError lb (wrap64 (H - lb)) (ErrHTTPStatus status url)) out /\
    length out = 4%nat.
Proof.
  intros Hlatest Hlb Hge url Hurl Hget Hstatus.
  unfold average_program. rewrite Hlatest.
  destruct (heimdall_avg_failures_not_fatal (getBlockTime Parse net base) H T E)
    as (out & Hmain & Hout & Herr & _).
  exists out. split; [exact Hmain|]. split.
  - apply Herr; [exact Hlb | exact Hge |].
    unfold getBlockTime. cbv zeta. fold url.
    rewrite (getJSON_status net url status body Hurl Hget Hstatus). reflexivity.
  - rewrite Hout. reflexivity.
Qed.

Lemma average_program_http_error_witness :
  exists out,
    average_program (H := RestSamples.decode_status)
      (H0 := RestSamples.decode_block) RestSamples.parse_epoch
      RestSamples.no_blocks "http://heimdall" =
      Returned (CurrentBlock 2000000 0 1 :: out) /\
    In (FetchError 10000 (wrap64 (2000000 - 10000))
          (ErrHTTPStatus 404
             (String.append "http://heimdall"
                (String.append "/block?height="
                   (Text.fmt_d (wrap64 (2000000 - 10000))))))) out /\
    length out = 4%nat.
Proof.
  refine (average_program_http_error (HS := RestSamples.decode_status)
            (HB := RestSamples.decode_block) RestSamples.parse_epoch
            RestSamples.no_blocks "http://heimdall" 2000000 0 1 10000 404 ""
            _ _ _ _ _ _).
  - reflexivity.
  - left. reflexivity.
  - vm_compute. discriminate.
  - reflexivity.
  - reflexivity.
  - right. lia.
Defined.

End AverageProgram.

(** ** Every outcome of a JSON-RPC call *)

Section Traces.
Import Rpc Schedule.

Lemma posts_app (a b : list Event) : posts (a ++ b) = (posts a + posts b)%nat.
Proof.
  induction a as [|[u r|d] a IH]; simpl; [reflexivity | now rewrite IH | exact IH].
Qed.

Lemma sleeps_app (a b : list Event) : sleeps (a ++ b) = (sleeps a ++ sleeps b)%list.
Proof.
  induction a as [|[u r|d] a IH]; simpl; [reflexivity | exact IH | now rewrite IH].
Qed.

Lemma total_backoff_app (a b : list Event) :
  total_backoff (a ++ b) = total_backoff a + total_backoff b.
Proof.
  unfold total_backoff. rewrite sleeps_app.
  induction (sleeps a) as [|d l IH]; simpl; [reflexivity | rewrite IH; lia].
Qed.

Lemma after_nil (w : World) : after w [] w.
Proof.
  unfold after. destruct w as [n tr]. simpl.
  rewrite Nat.add_0_r, app_nil_r. reflexivity.
Qed.

Lemma after_app (w w1 w2 : World) (tr1 tr2 : list Event) :
  after w tr1 w1 -> after w1 tr2 w2 -> after w (tr1 ++ tr2) w2.
Proof.
  unfold after. intros -> ->. simpl.
  rewrite posts_app, Nat.add_assoc, app_assoc. reflexivity.
Qed.

Lemma within_refl (w : World) : within 0 0 w w.
Proof. exists []. split; [apply after_nil|]. split; [simpl; lia | reflexivity]. Qed.

Lemma within_trans (n1 n2 : nat) (d1 d2 : Z) (w w1 w2 : World) :
  within n1 d1 w w1 -> within n2 d2 w1 w2 -> within (n1 + n2) (d1 + d2) w w2.
Proof.
  intros (tr1 & H1 & Hp1 & Hb1) (tr2 & H2 & Hp2 & Hb2).
  exists (tr1 ++ tr2)%list. split; [exact (after_app _ _ _ _ _ H1 H2)|].
  rewrite posts_app, total_backoff_app. split; lia.
Qed.

Lemma within_weaken (n n' : nat) (d d' : Z) (w w' : World) :
  (n <= n')%nat -> d <= d' -> within n d w w' -> within n' d' w w'.
Proof.
  intros Hn Hd (tr & H & Hp & Hb). exists tr. split; [exact H|]. split; lia.
Qed.

Lemma backoffs_succ (a : Z) (j : nat) :
  backoffs a (S j) = retryBackoff * (a + 1) :: backoffs (a + 1) j.
Proof.
  unfold backoffs. simpl. f_equal; [f_equal; lia|].
  rewrite <- seq_shift, map_map. apply map_ext. intros i. f_equal. lia.
Qed.

End Traces.

Section RpcOutcome.
Import Rpc Schedule.
Context {T : Type} `{HD : Decode T}.
Variables (net : Net) (rpcURL method : string) (params : list param).

Lemma attempt_success_inv (r : wire) :
  attempt_failure (T := T) r = None ->
  exists body decoded,
    r = Response body /\ decode body = Ok decoded /\ Error decoded = None.
Proof using Type.
  unfold attempt_failure. destruct r as [e|body]; [discriminate|].
  destruct (decode body) as [decoded|e] eqn:Hd; [|discriminate].
  destruct (Error decoded) eqn:He; [discriminate|]. intros _.
  exists body, decoded. tauto.
Qed.

(** What the loop does from attempt [a] with [k] rounds left: [j]
    failed attempts, each followed by its sleep, and then either a
    successful attempt or, the rounds used up, the exhaustion error
    with the last failure. *)
Lemma rpcCall_loop_outcome (k : nat) :
  forall a lastErr w,
    url_error net rpcURL = None -> 0 <= a -> a + Z.of_nat k <= 3 ->
    exists j tr r w',
      rpcCall_loop (T := T) net rpcURL method params k a lastErr w = (r, w') /\
      after w tr w' /\ sleeps tr = backoffs a j /\ (j <= k)%nat /\
      (forall i, (i < j)%nat ->
         exists e, attempt_failure (T := T)
                     (respond net (requests w + i) rpcURL (request method params))
                   = Some e) /\
      ((exists body decoded,
          (j < k)%nat /\ posts tr = S j /\
          respond net (requests w + j) rpcURL (request method params)
            = Response body /\
          decode body = Ok decoded /\ Error decoded = None /\
          r = Ok (Result decoded)) \/
       (j = k /\ posts tr = k /\
        r = Err (ErrRpcExhausted method maxRetries
                   (match k with
                    | O => lastErr
                    | S k' =>
                        attempt_failure (T := T)
                          (respond net (requests w + k') rpcURL
                             (request method params))
                    end)))).
Proof using Type.
  induction k as [|k IH]; intros a lastErr w Hurl Ha Hk.
  - exists O, [], (Err (ErrRpcExhausted method maxRetries lastErr)), w.
    split; [reflexivity|]. split; [apply after_nil|]. split; [reflexivity|].
    split; [lia|]. split; [intros i Hi; lia|]. right. tauto.
  - destruct (attempt_failure (T := T)
                (respond net (requests w) rpcURL (request method params)))
      as [e|] eqn:Hatt.
    + rewrite (rpcCall_loop_retry net rpcURL method params k a lastErr w e Hurl Hatt).
      set (w1 := {| requests := S (requests w);
                    trace := trace w ++
                      [EvPost rpcURL (request method params);
                       EvSleep (GoTime.Duration_mul retryBackoff (a + 1))] |}).
      destruct (IH (a + 1) (Some e) w1 Hurl ltac:(lia) ltac:(lia))
        as (j & tr & r & w' & Hrun & Hafter & Hsl & Hj & Hfail & Hcase).
      assert (Hmul : GoTime.Duration_mul retryBackoff (a + 1) = retryBackoff * (a + 1)).
      { unfold GoTime.Duration_mul. apply wrap64_small.
        unfold is_int64, MinInt64, MaxInt64, retryBackoff, GoTime.Millisecond,
          GoTime.Microsecond, GoTime.Nanosecond. lia. }
      exists (S j),
        ([EvPost rpcURL (request method params);
          EvSleep (retryBackoff * (a + 1))] ++ tr)%list, r, w'.
      split; [exact Hrun|]. split.
      { apply after_app with w1; [|exact Hafter].
        unfold after, w1. simpl. rewrite Hmul. f_equal. lia. }
      split; [simpl; rewrite Hsl, backoffs_succ; reflexivity|].
      split; [lia|]. split.
      { intros i Hi. destruct i as [|i].
        - exists e. rewrite Nat.add_0_r. exact Hatt.
        - destruct (Hfail i ltac:(lia)) as [e' He']. exists e'.
          unfold w1 in He'. simpl in He'.
          replace (requests w + S i)%nat with (S (requests w + i)) by lia.
          exact He'. }
      destruct Hcase as [(body & decoded & Hlt & Hposts & Hresp & Hdec & Herr & Hr)
                        |(Hjk & Hposts & Hr)].
      * left. exists body, decoded. split; [lia|]. split; [simpl; lia|].
        split; [|tauto]. unfold w1 in Hresp. simpl in Hresp.
        replace (requests w + S j)%nat with (S (requests w + j)) by lia.
        exact Hresp.
      * right. split; [lia|]. split; [simpl; lia|]. rewrite Hr. f_equal. f_equal.
        destruct k as [|k']; [rewrite Nat.add_0_r; symmetry; exact Hatt|].
        unfold w1. simpl.
        replace (requests w + S k')%nat with (S (requests w + k')) by lia.
        reflexivity.
    + destruct (attempt_success_inv _ Hatt) as (body & decoded & Hresp & Hdec & Herr).
      rewrite (rpcCall_loop_success net rpcURL method params k a lastErr w body
                 decoded Hurl Hresp Hdec Herr).
      exists O, [EvPost rpcURL (request method params)], (Ok (Result decoded)),
        {| requests := S (requests w);
           trace := trace w ++ [EvPost rpcURL (request method params)] |}.
      split; [reflexivity|]. split; [unfold after; simpl; f_equal; lia|].
      split; [reflexivity|]. split; [lia|]. split; [intros i Hi; lia|].
      left. exists body, decoded. rewrite Nat.add_0_r.
      split; [lia|]. tauto.
Qed.

Lemma rpcCall_url_error (e : error) (w : World) :
  url_error net rpcURL = Some e ->
  rpcCall (T := T) net rpcURL method params w = (Err e, w).
Proof using Type.
  intros Hurl. unfold rpcCall. change (Z.to_nat maxRetries) with 3%nat.
  simpl. rewrite Hurl. reflexivity.
Qed.

Lemma backoffs_total (j : nat) :
  (j <= 3)%nat -> fold_right Z.add 0 (backoffs 0 j) <= 6 * retryBackoff.
Proof using Type.
  intros Hj. destruct j as [|[|[|[|j]]]]; try lia; vm_compute; discriminate.
Qed.

(** A call sends at most three requests and sleeps 3.6 seconds at most. *)
Lemma rpcCall_within (w : World) :
  within 3 (6 * retryBackoff) w
    (snd (rpcCall (T := T) net rpcURL method params w)).
Proof using Type.
  destruct (url_error net rpcURL) as [e|] eqn:Hurl.
  - rewrite (rpcCall_url_error e w Hurl). simpl.
    apply within_weaken with O 0; [lia | vm_compute; discriminate | apply within_refl].
  - unfold rpcCall. change (Z.to_nat maxRetries) with 3%nat.
    destruct (rpcCall_loop_outcome 3 0 None w Hurl ltac:(lia) ltac:(lia))
      as (j & tr & r & w' & Hrun & Hafter & Hsl & Hj & _ & Hcase).
    rewrite Hrun. simpl. exists tr. split; [exact Hafter|]. split.
    + destruct Hcase as [(_ & _ & Hlt & Hp & _)|(_ & Hp & _)]; lia.
    + unfold total_backoff. rewrite Hsl. apply backoffs_total. exact Hj.
Qed.

(** X12. Every outcome of [rpcCall].  A URL that cannot be made into
    a request fails the call before anything is sent and with no sleep.
    Otherwise some number [j] of attempts fail, attempt [i] followed by
    a sleep of [retryBackoff * (i + 1)], and then either [j < 3] and
    attempt [j] succeeds, [j + 1] requests having been sent and its
    decoded result being returned, or [j = 3] and the call fails with
    the exhaustion error that carries the failure of the third
    attempt. *)
Theorem rpcCall_outcome (w : World) :
  (exists e,
     url_error net rpcURL = Some e /\
     rpcCall (T := T) net rpcURL method params w = (Err e, w)) \/
  (url_error net rpcURL = None /\
   exists j tr r w',
     rpcCall (T := T) net rpcURL method params w = (r, w') /\
     after w tr w' /\ sleeps tr = backoffs 0 j /\
     (forall i, (i < j)%nat ->
        exists e, attempt_failure (T := T)
                    (respond net (requests w + i) rpcURL (request method params))
                  = Some e) /\
     ((exists body decoded,
         (j < 3)%nat /\ posts tr = S j /\
         respond net (requests w + j) rpcURL (request method params)
           = Response body /\
         decode body = Ok decoded /\ Error decoded = None /\
         r = Ok (Result decoded)) \/
      (j = 3%nat /\ posts tr = 3%nat /\
       r = Err (ErrRpcExhausted method maxRetries
                  (attempt_failure (T := T)
                     (respond net (requests w + 2) rpcURL
                        (request method params))))))).
Proof using Type.
  destruct (url_error net rpcURL) as [e|] eqn:Hurl.
  - left. exists e. split; [reflexivity|]. apply rpcCall_url_error. exact Hurl.
  - right. split; [reflexivity|].
    destruct (rpcCall_loop_outcome 3 0 None w Hurl ltac:(lia) ltac:(lia))
      as (j & tr & r & w' & Hrun & Hafter & Hsl & Hj & Hfail & Hcase).
    exists j, tr, r, w'. unfold rpcCall. change (Z.to_nat maxRetries) with 3%nat.
    tauto.
Qed.

End RpcOutcome.

(** ** Bounds on the requests of a run *)

Section RequestBounds.
Import Rpc Schedule.
Context `{HS : Decode string} `{HB : Decode (option block)}.
Variables (net : Net) (rpcURL : string).

Lemma getLatestBlockNumber_within (w : World) :
  within 3 (6 * retryBackoff) w (snd (getLatestBlockNumber net rpcURL w)).
Proof using Type.
  pose proof (rpcCall_within (T := string) net rpcURL "eth_blockNumber" [] w) as Hw.
  unfold getLatestBlockNumber, bind.
  destruct (rpcCall net rpcURL "eth_blockNumber" [] w) as [[hex|err] w1];
    exact Hw.
Qed.

Lemma getBlockTimestamp_within (height : Z) (w : World) :
  within 3 (6 * retryBackoff) w (snd (getBlockTimestamp net rpcURL height w)).
Proof using Type.
  pose proof (rpcCall_within (T := option block) net rpcURL "eth_getBlockByNumber"
                [PString (Hex.toHex height); PBool false] w) as Hw.
  unfold getBlockTimestamp, bind.
  destruct (rpcCall net rpcURL "eth_getBlockByNumber" _ w) as [[[b|]|err] w1];
    try exact Hw.
  destruct (String.eqb (Timestamp b) ""); exact Hw.
Qed.

Lemma fetch_loop_within (heights : list Z) :
  forall infos warnings w,
    within (3 * length heights) (6 * retryBackoff * Z.of_nat (length heights)) w
      (snd (bor_avg.fetch_loop net rpcURL heights infos warnings w)).
Proof using Type.
  induction heights as [|h rest IH]; intros infos warnings w.
  - simpl. apply within_refl.
  - pose proof (getBlockTimestamp_within h w) as Hw.
    cbn [bor_avg.fetch_loop]. unfold bind at 1.
    destruct (getBlockTimestamp net rpcURL h w) as [[ts|err] w1]; simpl in Hw.
    + apply within_weaken
        with (3 + 3 * length rest)%nat
             (6 * retryBackoff + 6 * retryBackoff * Z.of_nat (length rest));
        [simpl; lia | cbn [length]; lia|].
      apply within_trans with w1; [exact Hw | apply IH].
    + apply within_weaken
        with (3 + 3 * length rest)%nat
             (6 * retryBackoff + 6 * retryBackoff * Z.of_nat (length rest));
        [simpl; lia | cbn [length]; lia|].
      apply within_trans with w1; [exact Hw | apply IH].
Qed.

Lemma ensure_latest_within (n : Z) (infos : gmap Z bor_avg.info) (w : World) :
  within 3 (6 * retryBackoff) w (snd (bor_avg.ensure_latest net rpcURL n infos w)).
Proof using Type.
  unfold bor_avg.ensure_latest. destruct (infos !! n) as [x|].
  - simpl. apply within_weaken with O 0; [lia | vm_compute; discriminate|].
    apply within_refl.
  - pose proof (getBlockTimestamp_within n w) as Hw. unfold bind.
    destruct (getBlockTimestamp net rpcURL n w) as [[ts|err] w1]; exact Hw.
Qed.

Lemma resolve_heights_length (ts : list bor_avg.target) (n : Z) :
  forall acc,
    (length (bor_avg.resolve_heights ts n acc) <= length acc + length ts)%nat.
Proof using Type.
  induction ts as [|t rest IH]; intros acc; simpl; [lia|].
  destruct (bor_avg.resolve t n) as [h [|]].
  - specialize (IH (acc ++ [h])%list). rewrite length_app in IH. simpl in IH. lia.
  - specialize (IH acc). lia.
Qed.

(** X13. A run of the Bor average program sends at most 21 requests
    and sleeps at most 42 backoff units (25.2 seconds) between them,
    whatever the endpoint answers: three for the latest height, three
    for each of at most five reference heights, three to fetch the
    latest block again. *)
Theorem bor_avg_main_within (w : World) :
  within 21 (42 * retryBackoff) w (snd (bor_avg.main net rpcURL w)) /\
  (requests (snd (bor_avg.main net rpcURL w)) <= requests w + 21)%nat.
Proof using Type.
  assert (Hw : within 21 (42 * retryBackoff) w (snd (bor_avg.main net rpcURL w))).
  { pose proof (getLatestBlockNumber_within w) as H1.
    unfold bor_avg.main. unfold bind at 1.
    destruct (getLatestBlockNumber net rpcURL w) as [[n|err] w1]; simpl in H1.
    - pose proof (fetch_loop_within (bor_avg.resolve_heights bor_avg.targets n [])
                    ∅ [] w1) as H2.
      pose proof (resolve_heights_length bor_avg.targets n []) as Hlen.
      change (length bor_avg.targets) with 5%nat in Hlen.
      change (length (@nil Z)) with O in Hlen.
      set (len := length (bor_avg.resolve_heights bor_avg.targets n [])) in *.
      unfold bind at 1.
      destruct (bor_avg.fetch_loop net rpcURL _ ∅ [] w1) as [[infos warnings] w2].
      simpl in H2.
      pose proof (ensure_latest_within n infos w2) as H3.
      unfold bind at 1.
      destruct (bor_avg.ensure_latest net rpcURL n infos w2) as [[nTS infos'] w3].
      simpl in H3.
      assert (Hend : within 21 (42 * retryBackoff) w w3).
      { apply within_weaken
          with (3 + (3 * len + 3))%nat
               (6 * retryBackoff +
                (6 * retryBackoff * Z.of_nat len + 6 * retryBackoff)).
        - lia.
        - assert (0 <= retryBackoff) by (vm_compute; discriminate). nia.
        - apply within_trans with w1; [exact H1|].
          apply within_trans with w2; [exact H2 | exact H3]. }
      destruct nTS as [nTS|]; exact Hend.
    - apply within_weaken with 3%nat (6 * retryBackoff);
        [lia | vm_compute; discriminate | exact H1]. }
  split; [exact Hw|].
  destruct Hw as (tr & Hafter & Hp & _). rewrite Hafter. simpl. lia.
Qed.

(** X14. A run of the Bor predictor sends at most 6 requests and
    sleeps at most 12 backoff units (7.2 seconds), whatever the endpoint
    answers and whatever the flags are. *)
Theorem bor_hf_main_within (target : result Z) (avgSecs : float) (w : World) :
  within 6 (12 * retryBackoff) w (snd (bor_hf.main net rpcURL target avgSecs w)) /\
  (requests (snd (bor_hf.main net rpcURL target avgSecs w)) <= requests w + 6)%nat.
Proof using Type.
  assert (Hw : within 6 (12 * retryBackoff) w
                 (snd (bor_hf.main net rpcURL target avgSecs w))).
  { pose proof (getLatestBlockNumber_within w) as H1.
    unfold bor_hf.main. unfold bind at 1.
    destruct (getLatestBlockNumber net rpcURL w) as [[n|err] w1]; simpl in H1.
    - pose proof (getBlockTimestamp_within n w1) as H2. unfold bind.
      destruct (getBlockTimestamp net rpcURL n w1) as [[curTS|err] w2]; simpl in H2.
      + assert (Hend : within 6 (12 * retryBackoff) w w2).
        { apply within_weaken with (3 + 3)%nat (6 * retryBackoff + 6 * retryBackoff);
            [lia | lia|].
          apply within_trans with w1; assumption. }
        destruct target as [tg|err]; [|exact Hend].
        destruct (bor_hf.report n curTS tg avgSecs); exact Hend.
      + apply within_weaken with (3 + 3)%nat (6 * retryBackoff + 6 * retryBackoff);
          [lia | lia|].
        apply within_trans with w1; assumption.
    - apply within_weaken with 3%nat (6 * retryBackoff);
        [lia | vm_compute; discriminate | exact H1]. }
  split; [exact Hw|].
  destruct Hw as (tr & Hafter & Hp & _). rewrite Hafter. simpl. lia.
Qed.

End RequestBounds.

(** ** The timestamp of the latest block *)

Section EmptyBlock.
Import Rpc.
Context `{HB : Decode (option block)}.
Variables (net : Net) (rpcURL : string).

(** X15. [getBlockTimestamp] does not retry a block the node does
    not have: when the first answer decodes to a response without error
    whose block is null or has an empty timestamp, the call fails with
    the empty block error for that height after exactly one request and
    no sleep. *)
Theorem getBlockTimestamp_empty_block (height : Z) (w : World) (body : string)
    (decoded : rpcResponse (option block)) :
  url_error net rpcURL = None ->
  respond net (requests w) rpcURL
    (request "eth_getBlockByNumber" [PString (Hex.toHex height); PBool false])
    = Response body ->
  decode body = Ok decoded ->
  Error decoded = None ->
  Result decoded = None \/
  (exists b, Result decoded = Some b /\ Timestamp b = "") ->
  getBlockTimestamp net rpcURL height w =
    (Err (ErrEmptyBlock height),
     {| requests := S (requests w);
        trace := trace w ++
          [EvPost rpcURL
             (request "eth_getBlockByNumber"
                [PString (Hex.toHex height); PBool false])] |}).
Proof using Type.
  intros Hurl Hresp Hdec Herr Hempty.
  unfold getBlockTimestamp, bind, rpcCall. cbv zeta.
  change (Z.to_nat maxRetries) with 3%nat.
  rewrite (rpcCall_loop_success net rpcURL "eth_getBlockByNumber"
             [PString (Hex.toHex height); PBool false] 2 0 None w body decoded
             Hurl Hresp Hdec Herr).
  destruct Hempty as [Hnone|(b & Hsome & Hts)].
  - rewrite Hnone. reflexivity.
  - rewrite Hsome, Hts. reflexivity.
Qed.

End EmptyBlock.

Lemma getBlockTimestamp_empty_block_witness :
  Rpc.getBlockTimestamp (H := RpcSamples.decode_null) bor_hf.steady "http://bor" 1000
     Rpc.start =
    (Err (ErrEmptyBlock 1000),
     {| Rpc.requests := 1;
        Rpc.trace := [Rpc.EvPost "http://bor"
                    (Rpc.request "eth_getBlockByNumber"
                       [Rpc.PString "0x3e8"; Rpc.PBool false])] |}).
Proof.
  apply (getBlockTimestamp_empty_block (HB := RpcSamples.decode_null) bor_hf.steady
           "http://bor" 1000  Rpc.start "0x67748580"
           {| Rpc.Result := None; Rpc.Error := None |});
    try reflexivity.
  left. reflexivity.
Defined.


Section LatestTimestamp.
Import Rpc bor_avg.
Context `{HS : Decode string} `{HB : Decode (option block)}.
Variables (net : Net) (rpcURL : string).

(** The fetch loop runs over the height of the latest block first. *)
Lemma targets_heights_latest (n : Z) :
  is_uint64 n ->
  exists rest, resolve_heights targets n [] = n :: rest.
Proof using Type.
  intros Hn. unfold targets.
  set (rest := [relative (-40000); relative (-280000); relative (-560000);
                relative (-1120000)]).
  change (resolve_heights (relative 0 :: rest) n [])
    with (match resolve (relative 0) n with
          | (h, true) => resolve_heights rest n ([] ++ [h])
          | (_, false) => resolve_heights rest n []
          end).
  rewrite (resolve_relative n 0 Hn)
    by (unfold is_int64, MinInt64, MaxInt64; lia).
  unfold is_uint64 in Hn. rewrite Z.add_0_r.
  destruct (Z.ltb_spec n 0); [lia|]. cbn [app].
  rewrite resolve_heights_app. eexists. reflexivity.
Qed.

Lemma fetch_answers_latest (n : Z) (w1 : World) :
  is_uint64 n ->
  exists rs,
    (fetch_answers net rpcURL (resolve_heights targets n []) w1).1 =
      (n, (getBlockTimestamp net rpcURL n w1).1) :: rs.
Proof using Type.
  intros Hn. destruct (targets_heights_latest n Hn) as [rest ->].
  cbn [fetch_answers].
  destruct (getBlockTimestamp net rpcURL n w1) as [r w2].
  destruct (fetch_answers net rpcURL rest w2) as [rs w3].
  exists rs. reflexivity.
Qed.

(** When the fetch of the latest block fails in the loop, the infos
    hold nothing at its height when the loop is over. *)
Lemma latest_missing (w w1 : World) (n : Z) (e : error) :
  getLatestBlockNumber net rpcURL w = (Ok n, w1) ->
  (getBlockTimestamp net rpcURL n w1).1 = Err e ->
  let fetched := fetch_answers net rpcURL (resolve_heights targets n []) w1 in
  List.NoDup (map fst fetched.1) /\ In (n, Err e) fetched.1 /\
  successes_into fetched.1 ∅ !! n = None.
Proof using Type.
  intros Hlatest Hfail fetched.
  pose proof (getLatestBlockNumber_range _ _ _ _ _ Hlatest) as Hrange.
  pose proof (targets_heights_NoDup n Hrange) as Hnd.
  rewrite <- (fetch_answers_heights net rpcURL (resolve_heights targets n []) w1)
    in Hnd.
  fold fetched in Hnd.
  assert (Hin : In (n, Err e) fetched.1).
  { destruct (fetch_answers_latest n w1 Hrange) as [rs Hrs].
    unfold fetched. rewrite Hrs, Hfail. left. reflexivity. }
  split; [exact Hnd|]. split; [exact Hin|].
  rewrite (successes_into_err _ _ e) by assumption. apply lookup_empty.
Qed.

(** X16. The Bor average program, when the timestamp of the latest
    block could not be fetched in the loop and cannot be fetched again
    either, exits with status 1 and prints nothing on standard output;
    the warnings of the loop, the one for the latest block among them,
    were given before. *)
Theorem bor_avg_latest_timestamp_missing (w w1 w3 : World) (n : Z) (e e' : error) :
  getLatestBlockNumber net rpcURL w = (Ok n, w1) ->
  (getBlockTimestamp net rpcURL n w1).1 = Err e ->
  let fetched := fetch_answers net rpcURL (resolve_heights targets n []) w1 in
  getBlockTimestamp net rpcURL n fetched.2 = (Err e', w3) ->
  main net rpcURL w =
    ((Exited [] 1 (ErrLatestTimestamp n), failures fetched.1), w3) /\
  In (n, e) (failures fetched.1).
Proof using Type.
  intros Hlatest Hfail fetched Hagain.
  destruct (latest_missing w w1 n e Hlatest Hfail) as (Hnd & Hin & Hnone).
  fold fetched in Hnd, Hin, Hnone. split.
  - unfold main, bind. rewrite Hlatest.
    rewrite fetch_loop_answers. fold fetched.
    unfold ensure_latest. rewrite Hnone. unfold bind. rewrite Hagain.
    reflexivity.
  - apply failures_In. exact Hin.
Qed.

(** X17. The Bor average program, when the timestamp of the latest
    block could not be fetched in the loop but the second fetch
    succeeds, returns normally: the header carries the timestamp of the
    second fetch, the warning for the latest block was given, and every
    other reference height whose fetch succeeded has its entry. *)
Theorem bor_avg_latest_timestamp_refetched (w w1 w3 : World) (n nTS : Z)
    (e : error) :
  getLatestBlockNumber net rpcURL w = (Ok n, w1) ->
  (getBlockTimestamp net rpcURL n w1).1 = Err e ->
  let fetched := fetch_answers net rpcURL (resolve_heights targets n []) w1 in
  getBlockTimestamp net rpcURL n fetched.2 = (Ok nTS, w3) ->
  exists out,
    main net rpcURL w =
      ((Returned (CurrentBlock n nTS :: out), failures fetched.1), w3) /\
    In (n, e) (failures fetched.1) /\
    (forall h ts,
       h <> n -> In (h, Ok ts) fetched.1 ->
       In (reference n nTS h {| height := h; timestamp := ts |}) out).
Proof using Type.
  intros Hlatest Hfail fetched Hagain.
  destruct (latest_missing w w1 n e Hlatest Hfail) as (Hnd & Hin & Hnone).
  fold fetched in Hnd, Hin, Hnone.
  set (infos := <[n := {| height := n; timestamp := nTS |}]>
                  (successes_into fetched.1 ∅)).
  exists (report_loop targets n nTS infos []). split; [|split].
  - unfold main, bind. rewrite Hlatest.
    rewrite fetch_loop_answers. fold fetched.
    unfold ensure_latest. rewrite Hnone. unfold bind. rewrite Hagain.
    unfold ret. cbv beta iota zeta. fold infos.
    assert (Hn : infos !! n = Some {| height := n; timestamp := nTS |})
      by apply lookup_insert_eq.
    rewrite Hn. cbn [timestamp].
    rewrite (report_loop_app targets n nTS infos [_]). reflexivity.
  - apply failures_In. exact Hin.
  - intros h ts Hne Hok. apply report_loop_In.
    assert (Hh : In h (resolve_heights targets n [])).
    { rewrite <- (fetch_answers_heights net rpcURL (resolve_heights targets n []) w1).
      fold fetched. apply (in_map fst) in Hok. exact Hok. }
    apply resolve_heights_In in Hh as (t & Ht & Hr).
    exists t, h, {| height := h; timestamp := ts |}.
    split; [exact Ht|]. split; [exact Hr|]. split; [exact Hne|].
    split; [|reflexivity].
    unfold infos. rewrite lookup_insert_ne by congruence.
    apply successes_into_ok; assumption.
Qed.

End LatestTimestamp.

Lemma bor_avg_latest_timestamp_missing_witness :
  (bor_avg.main (H := Rpc.decode_verbatim) (H0 := bor_hf.decode_timestamp)
     RpcSamples.one_answer "http://bor" Rpc.start).1 =
    (Exited [] 1 (ErrLatestTimestamp 1000000),
     [(1000000, ErrRpcExhausted "eth_getBlockByNumber" 3
                  (Some (ErrMsg "connection refused")));
      (960000, ErrRpcExhausted "eth_getBlockByNumber" 3
                 (Some (ErrMsg "connection refused")));
      (720000, ErrRpcExhausted "eth_getBlockByNumber" 3
                 (Some (ErrMsg "connection refused")));
      (440000, ErrRpcExhausted "eth_getBlockByNumber" 3
                 (Some (ErrMsg "connection refused")))]).
Proof.
  pose proof (bor_avg_latest_timestamp_missing
                (HS := Rpc.decode_verbatim) (HB := bor_hf.decode_timestamp)
                RpcSamples.one_answer "http://bor" Rpc.start
                (snd (Rpc.getLatestBlockNumber (H := Rpc.decode_verbatim)
                        RpcSamples.one_answer "http://bor" Rpc.start))
                (snd (bor_avg.main (H := Rpc.decode_verbatim)
                        (H0 := bor_hf.decode_timestamp)
                        RpcSamples.one_answer "http://bor" Rpc.start))
                1000000
                (ErrRpcExhausted "eth_getBlockByNumber" 3
                   (Some (ErrMsg "connection refused")))
                (ErrRpcExhausted "eth_getBlockByNumber" 3
                   (Some (ErrMsg "connection refused")))) as Hrun.
  cbv zeta in Hrun.
  destruct Hrun as [Hmain _]; [vm_compute; reflexivity ..|].
  rewrite Hmain. cbn [fst]. f_equal; vm_compute; reflexivity.
Defined.

Lemma bor_avg_latest_timestamp_refetched_witness :
  exists out,
    (bor_avg.main (H := Rpc.decode_verbatim) (H0 := bor_hf.decode_timestamp)
       RpcSamples.slow_start "http://bor" Rpc.start).1 =
      (Returned (bor_avg.CurrentBlock 1000000 1735689600 :: out),
       [(1000000, ErrRpcExhausted "eth_getBlockByNumber" 3
                    (Some (ErrMsg "connection refused")))]) /\
    In (bor_avg.reference 1000000 1735689600 960000
          {| bor_avg.height := 960000; bor_avg.timestamp := 1735689600 |}) out.
Proof.
  pose proof (bor_avg_latest_timestamp_refetched
                (HS := Rpc.decode_verbatim) (HB := bor_hf.decode_timestamp)
                RpcSamples.slow_start "http://bor" Rpc.start
                (snd (Rpc.getLatestBlockNumber (H := Rpc.decode_verbatim)
                        RpcSamples.slow_start "http://bor" Rpc.start))
                (snd (bor_avg.main (H := Rpc.decode_verbatim)
                        (H0 := bor_hf.decode_timestamp)
                        RpcSamples.slow_start "http://bor" Rpc.start))
                1000000 1735689600
                (ErrRpcExhausted "eth_getBlockByNumber" 3
                   (Some (ErrMsg "connection refused")))) as Hrun.
  cbv zeta in Hrun.
  destruct Hrun as (out & Hmain & _ & Hrefs); [vm_compute; reflexivity ..|].
  exists out. split.
  - rewrite Hmain. cbn [fst]. f_equal; vm_compute; reflexivity.
  - apply (Hrefs 960000 1735689600); [lia|].
    vm_compute. right. left. reflexivity.
Defined.

(** ** Reference heights and their entries *)

Section Resolve.
Import bor_avg.

(** X18. [resolve] never gives a height ahead of the latest block
    for a target whose offset is not positive: a height that resolves
    lies between 0 and [n] and comes from a relative or an absolute
    target, a target of any other kind does not resolve, and a target
    that does not resolve comes with height 0. *)
Theorem resolve_not_ahead (t : target) (n : Z) :
  is_uint64 n -> delta t <= 0 -> 0 <= value t ->
  (forall h, resolve t n = (h, true) ->
     0 <= h <= n /\ (kind t = "relative" \/ kind t = "absolute")) /\
  (forall h, resolve t n = (h, false) -> h = 0).
Proof.
  intros Hn Hd Hv. unfold is_uint64, MaxUint64 in Hn. unfold resolve.
  destruct (String.eqb_spec (kind t) "relative") as [Hk|Hk].
  - destruct (Z.geb_spec (delta t) 0) as [Hge|Hlt].
    + assert (delta t = 0) as -> by lia. change (wrapU64 0) with 0.
      rewrite Z.add_0_r, wrapU64_small by (unfold is_uint64, MaxUint64; lia).
      split; [|discriminate]. intros h [= <-]. split; [lia | tauto].
    + set (d := wrapU64 (wrap64 (- delta t))).
      assert (Hd0 : 0 <= d).
      { unfold d, wrapU64, two64.
        pose proof (Z.mod_pos_bound (wrap64 (- delta t)) (2 ^ 64) ltac:(lia)). lia. }
      destruct (Z.gtb_spec d n) as [Hgt|Hle].
      * split; [discriminate|]. intros h [= <-]. reflexivity.
      * rewrite wrapU64_small by (unfold is_uint64, MaxUint64; lia).
        split; [|discriminate]. intros h [= <-]. split; [lia | tauto].
  - destruct (String.eqb_spec (kind t) "absolute") as [Ha|Ha].
    + destruct (Z.gtb_spec (value t) n) as [Hgt|Hle].
      * split; [discriminate|]. intros h [= <-]. reflexivity.
      * split; [|discriminate]. intros h [= <-]. split; [lia | tauto].
    + split; [discriminate|]. intros h [= <-]. reflexivity.
Qed.

Lemma resolve_not_ahead_witness :
  0 <= 500 <= 1000 /\
  (kind {| kind := "absolute"; delta := 0; value := 500 |} = "relative" \/
   kind {| kind := "absolute"; delta := 0; value := 500 |} = "absolute").
Proof.
  apply (proj1 (resolve_not_ahead {| kind := "absolute"; delta := 0; value := 500 |}
                  1000 ltac:(unfold is_uint64, MaxUint64; lia) ltac:(simpl; lia)
                  ltac:(simpl; lia)) 500).
  reflexivity.
Defined.

End Resolve.

Section ReferenceLines.
Import bor_avg.

Lemma wrap64_congr (a b k : Z) : a = b + k * two64 -> wrap64 a = wrap64 b.
Proof.
  intros ->. unfold wrap64, two64.
  replace (b + k * 2 ^ 64 + 2 ^ 63) with (b + 2 ^ 63 + k * 2 ^ 64) by lia.
  rewrite Z.mod_add by lia. reflexivity.
Qed.

Lemma wrap64_multiple (a : Z) : exists k, wrap64 a = a + k * two64.
Proof.
  unfold wrap64, two64. exists (- ((a + 2 ^ 63) / 2 ^ 64)).
  pose proof (Z.div_mod (a + 2 ^ 63) (2 ^ 64) ltac:(lia)). lia.
Qed.

(** Subtraction in [int64] of two converted values is the conversion of
    the difference. *)
Lemma wrap64_sub (a b : Z) : wrap64 (wrap64 a - wrap64 b) = wrap64 (a - b).
Proof.
  destruct (wrap64_multiple a) as [ka Ha]. destruct (wrap64_multiple b) as [kb Hb].
  apply (wrap64_congr _ _ (ka - kb)). lia.
Qed.

(** X19. Every reference entry the Bor average program prints is
    for one of the four lookbacks 40000, 280000, 560000 and 1120000 that
    the latest height [n] reaches: its height is [n] less the lookback,
    its block difference is the lookback itself, also for heights above
    [2^63] where the conversions to [int64] wrap, and its average is the
    quotient of the two differences, never the NaN the variable starts
    with. *)
Theorem report_loop_references (n nTS : Z) (infos : gmap Z info) (l : line) :
  is_uint64 n ->
  In l (report_loop targets n nTS infos []) ->
  exists lb src,
    In lb [40000; 280000; 560000; 1120000] /\ lb <= n /\
    infos !! (n - lb) = Some src /\
    l = Reference lb (n - lb) (timestamp src) n
          (wrap64 (nTS - timestamp src))
          (PrimFloat.div
             (GoTime.float64_of_int (wrap64 (nTS - timestamp src)))
             (GoTime.float64_of_int lb)).
Proof.
  intros Hn Hin.
  apply report_loop_In in Hin as (t & h & src & Ht & Hr & Hne & Hsrc & ->).
  assert (Hlb : exists lb, In lb [0; 40000; 280000; 560000; 1120000] /\
                           t = relative (- lb)).
  { unfold targets in Ht. simpl in Ht.
    destruct Ht as [<-|[<-|[<-|[<-|[<-|[]]]]]];
      [exists 0 | exists 40000 | exists 280000 | exists 560000 | exists 1120000];
      (split; [simpl; tauto | reflexivity]). }
  destruct Hlb as (lb & Hlb & ->).
  assert (Hrange : 0 <= lb <= 1120000).
  { simpl in Hlb. lia. }
  rewrite resolve_relative in Hr
    by (try exact Hn; unfold is_int64, MinInt64, MaxInt64; lia).
  destruct (Z.ltb_spec (n + - lb) 0) as [Hneg|Hpos]; [discriminate|].
  injection Hr as <-.
  assert (Hnz : lb <> 0) by lia.
  exists lb, src.
  split; [simpl in Hlb; simpl; lia|]. split; [lia|].
  replace (n - lb) with (n + - lb) by lia. split; [exact Hsrc|].
  unfold reference. rewrite !wrap64_sub.
  replace (n - (n + - lb)) with lb by lia.
  rewrite (wrap64_small lb) by (unfold is_int64, MinInt64, MaxInt64; lia).
  destruct (Z.eqb_spec lb 0) as [?|_]; [contradiction|]. reflexivity.
Qed.

Lemma report_loop_references_witness :
  exists lb src,
    In lb [40000; 280000; 560000; 1120000] /\ lb <= 1000000 /\
    ({[ 960000 := {| height := 960000; timestamp := 1735600000 |} ]} :
       gmap Z info) !! (1000000 - lb) = Some src /\
    reference 1000000 1735689600 960000
      {| height := 960000; timestamp := 1735600000 |} =
    Reference lb (1000000 - lb) (timestamp src) 1000000
      (wrap64 (1735689600 - timestamp src))
      (PrimFloat.div
         (GoTime.float64_of_int (wrap64 (1735689600 - timestamp src)))
         (GoTime.float64_of_int lb)).
Proof.
  apply (report_loop_references 1000000 1735689600
           {[ 960000 := {| height := 960000; timestamp := 1735600000 |} ]}).
  - unfold is_uint64, MaxUint64. lia.
  - vm_compute. left. reflexivity.
Defined.

End ReferenceLines.
